(** * Verification of [json-schema/test-collapse.py]

    A shallow embedding of the collapse verification script: the recursive
    reference collector [collect_refs] and the driver [main] with its five
    checks, followed by the properties of the specification stated over them.

    Python values are embedded as follows.
    - A value produced by [json.load] is a [json]: [None], [bool], [int],
      [float], [str], [list] and [dict].  A [dict] is the list of its items in
      insertion order; its keys are pairwise distinct ([dict_wf]).
    - A [str] is a [string]; one character of the [string] stands for one code
      point, so that [len], slicing, [startswith] and the ordering used by
      [sorted] act character by character as they do in Python.
    - A [set] of strings is a [gset string].  The order in which Python
      iterates over a set is not fixed by the language (it follows the hashes
      of the members); it is a parameter of the model ([set_iteration]).
    - [print] appends a line to the standard output of the run; an uncaught
      exception and [sys.exit] abort the run and fix its exit status. *)

From Stdlib Require Import ZArith Ascii Floats.SpecFloat.
From stdpp Require Import gmap strings list sorting pretty.

Set Warnings "-register-all".

(** ** JSON values as loaded by [json.load] *)

Inductive json : Type :=
| JNull
| JBool (b : bool)
| JInt (n : Z)
| JFloat (f : spec_float)
| JStr (s : string)
| JArr (items : list json)
| JObj (fields : list (string * json)).

(** Structural induction through the two containers. *)
Section json_induction.
Variable P : json → Prop.
Hypothesis Hnull : P JNull.
Hypothesis Hbool : ∀ b, P (JBool b).
Hypothesis Hint : ∀ n, P (JInt n).
Hypothesis Hfloat : ∀ f, P (JFloat f).
Hypothesis Hstr : ∀ s, P (JStr s).
Hypothesis Harr : ∀ items, Forall P items → P (JArr items).
Hypothesis Hobj : ∀ fields, Forall (λ kv, P kv.2) fields → P (JObj fields).

Fixpoint json_nested_ind (j : json) : P j :=
  match j with
  | JNull => Hnull
  | JBool b => Hbool b
  | JInt n => Hint n
  | JFloat f => Hfloat f
  | JStr s => Hstr s
  | JArr items =>
      Harr items
        ((fix all (l : list json) : Forall P l :=
            match l with
            | [] => List.Forall_nil _
            | x :: l' => List.Forall_cons _ x l' (json_nested_ind x) (all l')
            end) items)
  | JObj fields =>
      Hobj fields
        ((fix all (l : list (string * json)) : Forall (λ kv, P kv.2) l :=
            match l with
            | [] => List.Forall_nil _
            | kv :: l' =>
                List.Forall_cons _ kv l' (json_nested_ind kv.2) (all l')
            end) fields)
  end.
End json_induction.

(** ** Python string primitives used by the collector *)

(** ["#/definitions/"], the prefix of a local reference. *)
Definition REF_PREFIX : string := "#/definitions/".

(** [s.startswith(p)] *)
Definition startswith (s p : string) : bool := String.prefix p s.

(** [s[n:]] *)
Fixpoint slice_from (n : nat) (s : string) : string :=
  match n, s with
  | O, _ => s
  | S _, EmptyString => EmptyString
  | S n', String _ s' => slice_from n' s'
  end.

(** ** The reference collector (lines 21-34) *)

(** The guard of line 27 together with the slice of line 28: the captured
    name when [key == "$ref" and isinstance(val, str) and
    val.startswith("#/definitions/")], and [None] when the guard fails. *)
Definition ref_target (key : string) (val : json) : option string :=
  match val with
  | JStr s =>
      if String.eqb key "$ref" && startswith s REF_PREFIX
      then Some (slice_from (String.length REF_PREFIX) s)
      else None
  | _ => None
  end.

(** [collect_refs(obj, refs)].  The accumulator [refs] is threaded through the
    walk; the call returns it.  (The default [refs=None] stands for a fresh
    empty set, [collect_refs obj ∅].) *)
Fixpoint collect_refs (obj : json) (refs : gset string) : gset string :=
  match obj with
  | JObj fields =>
      foldl (λ refs kv,
               match ref_target kv.1 kv.2 with
               | Some name => {[ name ]} ∪ refs
               | None => collect_refs kv.2 refs
               end) refs fields
  | JArr items => foldl (λ refs item, collect_refs item refs) refs items
  | _ => refs
  end.

(** *** What the collector is specified to find *)

(** [entry_in j key val]: the mapping entry [key: val] occurs in the transitive
    structure of [j], descending into every value of an object and every
    element of an array. *)
Inductive entry_in : json → string → json → Prop :=
| entry_here fields key val :
    (key, val) ∈ fields → entry_in (JObj fields) key val
| entry_in_value fields k v key val :
    (k, v) ∈ fields → entry_in v key val → entry_in (JObj fields) key val
| entry_in_item items item key val :
    item ∈ items → entry_in item key val → entry_in (JArr items) key val.

(** [j] holds a local reference to the definition [name]. *)
Definition references (j : json) (name : string) : Prop :=
  entry_in j "$ref" (JStr (REF_PREFIX +:+ name)).

(** ** Python primitives used by the driver *)

(** The exceptions the script can raise. *)
Inductive exn : Type :=
| OSError            (* open(path) fails *)
| JSONDecodeError    (* json.load on a malformed document *)
| AttributeError     (* .get / .items / .keys on a value that is not a dict *)
| TypeError.         (* len of a value without length, join of non-strings *)

(** The result of evaluating an expression or running a statement: a value,
    an exception that is propagating, or [sys.exit(code)]. *)
Inductive result (A : Type) : Type :=
| Ok (a : A)
| Raise (e : exn)
| Exit (code : Z).
Arguments Ok {A} a.
Arguments Raise {A} e.
Arguments Exit {A} code.

(** [d.get(key, default)] on the items of a dict. *)
Fixpoint dict_get (d : list (string * json)) (key : string) (default : json) : json :=
  match d with
  | [] => default
  | (k, v) :: d' => if String.eqb k key then v else dict_get d' key default
  end.

(** [key in d] followed by [d[key]]: [Some d[key]] when the key is present. *)
Fixpoint dict_lookup (d : list (string * json)) (key : string) : option json :=
  match d with
  | [] => None
  | (k, v) :: d' => if String.eqb k key then Some v else dict_lookup d' key
  end.

(** [d[key] = v]: an existing key keeps its place, a new key goes last. *)
Fixpoint dict_set (d : list (string * json)) (key : string) (v : json)
  : list (string * json) :=
  match d with
  | [] => [(key, v)]
  | (k, x) :: d' =>
      if String.eqb k key then (k, v) :: d' else (k, x) :: dict_set d' key v
  end.

(** The keys of a dict are pairwise distinct. *)
Definition dict_wf (d : list (string * json)) : Prop := NoDup d.*1.

(** [obj.get(key, default)]: only a dict has [get]. *)
Definition py_get (obj : json) (key : string) (default : json) : result json :=
  match obj with
  | JObj d => Ok (dict_get d key default)
  | _ => Raise AttributeError
  end.

(** [obj.items()] *)
Definition py_items (obj : json) : result (list (string * json)) :=
  match obj with
  | JObj d => Ok d
  | _ => Raise AttributeError
  end.

(** [obj.keys()] *)
Definition py_keys (obj : json) : result (list string) :=
  match obj with
  | JObj d => Ok d.*1
  | _ => Raise AttributeError
  end.

(** [len(obj)]: dicts, lists and strings have a length. *)
Definition py_len (obj : json) : result Z :=
  match obj with
  | JObj d => Ok (Z.of_nat (length d))
  | JArr items => Ok (Z.of_nat (length items))
  | JStr s => Ok (Z.of_nat (String.length s))
  | _ => Raise TypeError
  end.

(** [sep.join(parts)] for a list of strings. *)
Fixpoint join (sep : string) (parts : list string) : string :=
  match parts with
  | [] => ""
  | [x] => x
  | x :: rest => x +:+ sep +:+ join sep rest
  end.

(** The strings of a list whose items are all [str]. *)
Fixpoint all_strings (items : list json) : option (list string) :=
  match items with
  | [] => Some []
  | JStr s :: rest => cons s <$> all_strings rest
  | _ :: _ => None
  end.

(** The one-character strings of a string. *)
Fixpoint characters (s : string) : list string :=
  match s with
  | EmptyString => []
  | String c s' => String c EmptyString :: characters s'
  end.

(** [sep.join(targets)]: [targets] is iterated (a list by its items, a string
    by its characters, a dict by its keys) and every item must be a [str]. *)
Definition py_join (sep : string) (targets : json) : result string :=
  match targets with
  | JArr items =>
      match all_strings items with
      | Some parts => Ok (join sep parts)
      | None => Raise TypeError
      end
  | JStr s => Ok (join sep (characters s))
  | JObj d => Ok (join sep d.*1)
  | _ => Raise TypeError
  end.

(** [f == n] for a float [f] and an int [n]: Python compares the two values
    exactly. *)
Definition float_eq_int (f : spec_float) (n : Z) : bool :=
  match f with
  | S754_zero _ => Z.eqb n 0
  | S754_finite s m e =>
      let sign := if s then (-1)%Z else 1%Z in
      if Z.leb 0 e then Z.eqb n (sign * Z.pos m * 2 ^ e)
      else Z.eqb (Z.pos m mod 2 ^ (- e)) 0 && Z.eqb n (sign * (Z.pos m / 2 ^ (- e)))
  | _ => false
  end.

(** [v != n] for a loaded value [v] and an int [n].  An int or a float is
    compared by value, [True] and [False] are the ints 1 and 0, and every other
    value differs from every int. *)
Definition py_ne_int (v : json) (n : Z) : bool :=
  match v with
  | JInt z => negb (Z.eqb z n)
  | JBool b => negb (Z.eqb (Z.b2z b) n)
  | JFloat f => negb (float_eq_int f n)
  | _ => true
  end.

(** The part of [path] after its last ["/"], when it has one. *)
Fixpoint after_last_slash (path : string) : option string :=
  match path with
  | EmptyString => None
  | String c rest =>
      match after_last_slash rest with
      | Some tail => Some tail
      | None => if Ascii.eqb c "/"%char then Some rest else None
      end
  end.

(** [os.path.basename(path)] on POSIX: [path[path.rfind("/") + 1:]]. *)
Definition basename (path : string) : string :=
  default path (after_last_slash path).

(** [s * n] *)
Fixpoint py_repeat (s : string) (n : nat) : string :=
  match n with
  | O => ""
  | S n' => s +:+ py_repeat s n'
  end.

(** The newline character of an f-string. *)
Definition NL : string := String (Ascii.ascii_of_nat 10) EmptyString.

(** ** Sets and [sorted] *)

(** An order of iteration over sets of strings: some enumeration of the
    members, each once. *)
Record set_iteration : Type := {
  iterate : gset string → list string;
  iterate_perm : ∀ s, iterate s ≡ₚ elements s
}.

(** [sorted(s)] for a set of strings: the members are iterated, then sorted by
    the order of [str]. *)
Definition sorted (ord : set_iteration) (s : gset string) : list string :=
  merge_sort String.le (iterate ord s).

(** [sorted(d.items())]: the pairs are compared by their first components, the
    keys, which are distinct. *)
Definition sorted_items (d : list (string * json)) : list (string * json) :=
  merge_sort (λ a b, String.le a.1 b.1) d.

(** ** The environment of a run *)

(** What [open(path)] followed by [json.load] yields. *)
Inductive file : Type :=
| Unreadable
| Malformed
| Document (j : json).

(** [with open(path) as f: json.load(f)] in a file system [fs]. *)
Definition load (fs : string → file) (path : string) : result json :=
  match fs path with
  | Unreadable => Raise OSError
  | Malformed => Raise JSONDecodeError
  | Document j => Ok j
  end.

(** ** Statements: standard output, the error list, abrupt termination *)

Record state : Type := {
  stdout : list string;   (* the lines printed so far, one per [print] *)
  errors : list string    (* the list [errors] of [main] *)
}.

Definition initial : state := {| stdout := []; errors := [] |}.

Definition M (A : Type) : Type := state → state * result A.

Global Instance M_ret : MRet M := λ A a st, (st, Ok a).

Global Instance M_bind : MBind M := λ A B f m st,
  match m st with
  | (st', Ok a) => f a st'
  | (st', Raise e) => (st', Raise e)
  | (st', Exit code) => (st', Exit code)
  end.

(** An expression evaluated inside a statement. *)
Definition lift {A} (r : result A) : M A := λ st, (st, r).

(** [print(line)] *)
Definition print (line : string) : M unit := λ st,
  ({| stdout := stdout st ++ [line]; errors := errors st |}, Ok tt).

(** [errors.append(msg)] *)
Definition errors_append (msg : string) : M unit := λ st,
  ({| stdout := stdout st; errors := errors st ++ [msg] |}, Ok tt).

(** Reading the variable [errors]. *)
Definition get_errors : M (list string) := λ st, (st, Ok (errors st)).

(** [sys.exit(code)] *)
Definition sys_exit (code : Z) : M unit := λ st, (st, Exit code).

(** [for x in l: body] *)
Fixpoint for_each {A} (l : list A) (body : A → M unit) : M unit :=
  match l with
  | [] => mret tt
  | x :: l' => body x ;; for_each l' body
  end.

(** ** The driver (lines 37-118) *)

Section driver.
(** The files of the run, Python's formatting of a value inside an f-string
    ([format(v)], not part of the script), and the iteration order of sets. *)
Variable fs : string → file.
Variable format_value : json → string.
Variable ord : set_iteration.

(** Check 1, lines 54-64.  Returns the [before] document, which is bound
    exactly when [before_path] is truthy. *)
Definition check1 (before_path : option string) (after_count : Z)
  : M (option json) :=
  match before_path with
  | Some path =>
      if bool_decide (path ≠ "") then
        before ← lift (load fs path);
        before_defs ← lift (py_get before "definitions" (JObj []));
        before_count ← lift (py_len before_defs);
        let removed := (before_count - after_count)%Z in
        print ("1. Def count: " +:+ pretty before_count +:+ " -> " +:+
               pretty after_count +:+ " (" +:+ pretty removed +:+ " removed)");;
        (if (removed <? 0)%Z
         then errors_append ("Def count increased by " +:+ pretty (- removed)%Z)
         else mret tt);;
        mret (Some before)
      else
        print ("1. Def count: " +:+ pretty after_count +:+
               " (no before-schema for comparison)");;
        mret None
  | None =>
      print ("1. Def count: " +:+ pretty after_count +:+
             " (no before-schema for comparison)");;
      mret None
  end.

(** Lines 69-70, the body of the loop over the definitions. *)
Definition record_reduced (reduced_defs : list (string * json))
    (entry : string * json) : list (string * json) :=
  match entry.2 with
  | JObj defn =>
      match dict_lookup defn "x-netex-reduced" with
      | Some targets => dict_set reduced_defs entry.1 targets
      | None => reduced_defs
      end
  | _ => reduced_defs
  end.

(** The loop of lines 67-70: the dict [reduced_defs]. *)
Definition reduced_of (items : list (string * json)) : list (string * json) :=
  foldl record_reduced [] items.

(** Check 2, lines 66-74.  Returns [reduced_defs]. *)
Definition check2 (after_defs : json) : M (list (string * json)) :=
  items ← lift (py_items after_defs);
  let reduced_defs := reduced_of items in
  print (NL +:+ "2. Collapsed defs (" +:+ pretty (length reduced_defs) +:+ "):");;
  for_each (sorted_items reduced_defs) (λ entry,
    joined ← lift (py_join ", " entry.2);
    print ("   " +:+ entry.1 +:+ " <- " +:+ joined));;
  mret reduced_defs.

(** The loop of lines 77-79: the set [all_refs]. *)
Definition all_refs_of (items : list (string * json)) : gset string :=
  foldl (λ all_refs entry, collect_refs entry.2 all_refs) ∅ items.

(** Check 3, lines 76-86.  Returns [all_refs]. *)
Definition check3 (after_defs : json) : M (gset string) :=
  items ← lift (py_items after_defs);
  let all_refs := all_refs_of items in
  after_keys ← lift (py_keys after_defs);
  let broken := all_refs ∖ list_to_set after_keys in
  print (NL +:+ "3. Broken $refs: " +:+ pretty (size broken));;
  (if bool_decide (broken ≠ ∅) then
     for_each (sorted ord broken) (λ ref,
       print ("   BROKEN: " +:+ ref);;
       errors_append ("Broken $ref: " +:+ ref))
   else mret tt);;
  mret all_refs.

(** Check 4, lines 88-99. *)
Definition check4 (before : option json) (after_defs : json)
    (all_refs : gset string) : M unit :=
  match before with
  | Some before =>
      before_defs ← lift (py_get before "definitions" (JObj []));
      before_keys ← lift (py_keys before_defs);
      after_keys ← lift (py_keys after_defs);
      let removed_names : gset string :=
        list_to_set before_keys ∖ list_to_set after_keys in
      let orphaned := removed_names ∩ all_refs in
      print (NL +:+ "4. Orphaned targets: " +:+ pretty (size orphaned));;
      if bool_decide (orphaned ≠ ∅) then
        for_each (sorted ord orphaned) (λ name,
          print ("   ORPHANED: " +:+ name);;
          errors_append ("Orphaned target: " +:+ name))
      else mret tt
  | None =>
      print (NL +:+ "4. Orphaned targets: (skipped, no before-schema)")
  end.

(** Check 5, lines 101-108. *)
Definition check5 (after : json) (reduced_defs : list (string * json)) : M unit :=
  collapsed_annotation ← lift (py_get after "x-netex-collapsed" (JInt 0));
  let actual_collapsed := Z.of_nat (length reduced_defs) in
  print (NL +:+ "5. x-netex-collapsed: " +:+ format_value collapsed_annotation +:+
         " (actual: " +:+ pretty actual_collapsed +:+ ")");;
  if py_ne_int collapsed_annotation actual_collapsed then
    errors_append ("x-netex-collapsed mismatch: annotation=" +:+
                   format_value collapsed_annotation +:+
                   ", actual=" +:+ pretty actual_collapsed)
  else mret tt.

(** The summary, lines 110-118. *)
Definition summary : M unit :=
  print (NL +:+ py_repeat "=" 50);;
  errs ← get_errors;
  match errs with
  | _ :: _ =>
      print ("FAIL: " +:+ pretty (length errs) +:+ " error(s)");;
      for_each errs (λ err, print ("  - " +:+ err));;
      sys_exit 1
  | [] => print "PASS: all checks passed"
  end.

Definition USAGE : string :=
  "Usage: python3 test-collapse.py <schema.json> [<before-schema.json>]".

(** [main()], with [sys.argv] as argument. *)
Definition main (argv : list string) : M unit :=
  match argv with
  | _ :: after_path :: rest =>
      let before_path := head rest in
      after ← lift (load fs after_path);
      after_defs ← lift (py_get after "definitions" (JObj []));
      after_count ← lift (py_len after_defs);
      print ("=== Collapse verification: " +:+ basename after_path +:+ " ===" +:+ NL);;
      before ← check1 before_path after_count;
      reduced_defs ← check2 after_defs;
      all_refs ← check3 after_defs;
      check4 before after_defs all_refs;;
      check5 after reduced_defs;;
      summary
  | _ =>
      print USAGE;;
      sys_exit 1
  end.

(** The exit status of the process: 0 when [main] returns, the argument of
    [sys.exit], and 1 when an exception reaches the top level. *)
Definition exit_status {A} (r : result A) : Z :=
  match r with
  | Ok _ => 0
  | Exit code => code
  | Raise _ => 1
  end.

(** One run of the script from the command line. *)
Definition run (argv : list string) : state * result unit := main argv initial.
End driver.

(** ** The report of the specification

    What the specification says of a pair of documents of the expected shape:
    [a] the items of the after document, [d] the items of its definitions
    mapping, and [bd] the items of the definitions mapping of the before
    document when one is supplied. *)

(** The union of the reference targets collected over every definition entry. *)
Definition targets_of (d : list (string * json)) : gset string :=
  ⋃ ((λ entry, collect_refs entry.2 ∅) <$> d).

(** The names of a definitions mapping. *)
Definition names_of (d : list (string * json)) : gset string := list_to_set d.*1.

(** Check 3: the targets that are not names of the after document. *)
Definition broken_of (d : list (string * json)) : gset string :=
  targets_of d ∖ names_of d.

(** Check 4: the names removed from the before document that are still
    targets. *)
Definition orphaned_of (bd d : list (string * json)) : gset string :=
  (names_of bd ∖ names_of d) ∩ targets_of d.

(** A definition entry that is an object carrying the provenance annotation. *)
Definition carries_reduced (defn : json) : bool :=
  match defn with
  | JObj fields => bool_decide (is_Some (dict_lookup fields "x-netex-reduced"))
  | _ => false
  end.

(** Check 2: the number of entries carrying the provenance annotation. *)
Definition collapsed_count (d : list (string * json)) : nat :=
  length (filter (λ entry, carries_reduced entry.2 = true) d).

(** The annotation [v] is the number [n]. *)
Definition is_number (v : json) (n : Z) : Prop :=
  v = JInt n ∨ ∃ f, v = JFloat f ∧ float_eq_int f n = true.

Definition check1_errors (bd : option (list (string * json)))
    (d : list (string * json)) : list string :=
  match bd with
  | Some bd =>
      let removed := (Z.of_nat (length bd) - Z.of_nat (length d))%Z in
      if (removed <? 0)%Z then ["Def count increased by " +:+ pretty (- removed)%Z]
      else []
  | None => []
  end.

Definition check3_errors (ord : set_iteration) (d : list (string * json))
  : list string :=
  (λ ref, "Broken $ref: " +:+ ref) <$> sorted ord (broken_of d).

Definition check4_errors (ord : set_iteration)
    (bd : option (list (string * json))) (d : list (string * json)) : list string :=
  match bd with
  | Some bd => (λ name, "Orphaned target: " +:+ name) <$> sorted ord (orphaned_of bd d)
  | None => []
  end.

Definition check5_errors (format_value : json → string)
    (a d : list (string * json)) : list string :=
  let annotation := dict_get a "x-netex-collapsed" (JInt 0) in
  let actual := Z.of_nat (length (reduced_of d)) in
  if py_ne_int annotation actual then
    ["x-netex-collapsed mismatch: annotation=" +:+ format_value annotation +:+
     ", actual=" +:+ pretty actual]
  else [].

(** One message per problem, in the order of the checks. *)
Definition expected_errors (format_value : json → string) (ord : set_iteration)
    (a d : list (string * json)) (bd : option (list (string * json)))
  : list string :=
  check1_errors bd d ++ check3_errors ord d ++ check4_errors ord bd d ++
  check5_errors format_value a d.

(** The provenance annotation of an entry, with the name of the entry. *)
Definition reduced_entry (entry : string * json) : option (string * json) :=
  match entry.2 with
  | JObj defn => (λ targets, (entry.1, targets)) <$> dict_lookup defn "x-netex-reduced"
  | _ => None
  end.

(** [", ".join(targets)] does not raise. *)
Definition joinable (targets : json) : bool :=
  match py_join ", " targets with
  | Ok _ => true
  | _ => false
  end.

(** The joined targets of an annotation that can be joined. *)
Definition joined (targets : json) : string :=
  match py_join ", " targets with
  | Ok text => text
  | _ => ""
  end.

(** The definitions of the before document of a run, when [before_path] is
    truthy: [Some (Some bd)] for a before document that is an object whose
    definitions are the object [bd], [Some None] when no before document is
    supplied, [None] for a before document of another shape. *)
Definition before_definitions (fs : string → file) (rest : list string)
  : option (option (list (string * json))) :=
  match head rest with
  | Some path =>
      if bool_decide (path ≠ "") then
        match fs path with
        | Document (JObj b) =>
            match dict_get b "definitions" (JObj []) with
            | JObj bd => Some (Some bd)
            | _ => None
            end
        | _ => None
        end
      else Some None
  | None => Some None
  end.

(** The documents of a run have the expected shape: the after document is an
    object [a] whose definitions are an object [d], the before document, when
    supplied, is an object whose definitions are an object [bd], and every
    provenance annotation can be joined. *)
Record shaped (fs : string → file) (after_path : string) (rest : list string)
    (a d : list (string * json)) (bd : option (list (string * json))) : Prop := {
  shaped_after : fs after_path = Document (JObj a);
  shaped_definitions : dict_get a "definitions" (JObj []) = JObj d;
  shaped_before : before_definitions fs rest = Some bd;
  shaped_joinable : forallb (λ entry, joinable entry.2) (reduced_of d) = true
}.

(** ** The effect of a statement

    [effect m st lines errs r]: run from [st], the statement [m] prints
    [lines], appends [errs] to the error list and ends with [r]. *)
Definition effect {A} (m : M A) (st : state) (lines errs : list string)
    (r : result A) : Prop :=
  m st = ({| stdout := stdout st ++ lines; errors := errors st ++ errs |}, r).

(** The line of check 1 when no before document is supplied. *)
Definition NO_BEFORE_LINE (after_count : Z) : string :=
  "1. Def count: " +:+ pretty after_count +:+ " (no before-schema for comparison)".

(** The rule that opens the summary. *)
Definition SEPARATOR : string := NL +:+ py_repeat "=" 50.

(** The lines of the summary for the error list [errs]. *)
Definition summary_lines (errs : list string) : list string :=
  match errs with
  | [] => [SEPARATOR; "PASS: all checks passed"]
  | _ :: _ =>
      [SEPARATOR; "FAIL: " +:+ pretty (length errs) +:+ " error(s)"] ++
      ((λ err, "  - " +:+ err) <$> errs)
  end.

(** How the summary ends for the error list [errs]. *)
Definition summary_result (errs : list string) : result unit :=
  match errs with
  | [] => Ok tt
  | _ :: _ => Exit 1
  end.

(** [triple Q m P]: whatever the state, the statement [m] appends only
    messages that satisfy [Q], and a value it returns satisfies [P]. *)
Definition triple {A} (Q : string → Prop) (m : M A) (P : A → Prop) : Prop :=
  ∀ st, ∃ lines errs r,
    effect m st lines errs r ∧ Forall Q errs ∧ ∀ a, r = Ok a → P a.

(** The number of problems the checks find, one per message. *)
Definition problem_count (a d : list (string * json))
    (bd : option (list (string * json))) : nat :=
  (match bd with
   | Some bd => if (Z.of_nat (length bd) - Z.of_nat (length d) <? 0)%Z then 1 else 0
   | None => 0
   end) +
  size (broken_of d) +
  (match bd with
   | Some bd => size (orphaned_of bd d)
   | None => 0
   end) +
  (if py_ne_int (dict_get a "x-netex-collapsed" (JInt 0))
        (Z.of_nat (length (reduced_of d))) then 1 else 0).

(** Some mapping entry inside [j] has the key [key]. *)
Fixpoint mentions (key : string) (j : json) : bool :=
  match j with
  | JObj fields =>
      existsb (λ entry, String.eqb entry.1 key || mentions key entry.2) fields
  | JArr items => existsb (mentions key) items
  | _ => false
  end.

(** ** The properties of the specification as stated *)

(** The exit status follows the error list: status 0 exactly when the list is
    empty, and a list that is not empty prints FAIL and gives status 1. *)
Definition exit_by_errors (fs : string → file) (format_value : json → string)
    (ord : set_iteration) (argv : list string) : Prop :=
  let r := run fs format_value ord argv in
  (exit_status r.2 = 0%Z ↔ errors r.1 = []) ∧
  (errors r.1 ≠ [] →
   ("FAIL: " +:+ pretty (length (errors r.1)) +:+ " error(s)") ∈ stdout r.1 ∧
   exit_status r.2 = 1%Z).

(** Check 5 records an error, a single one, exactly when the annotation is not
    the number of annotated entries. *)
Definition mismatch_by_number (format_value : json → string)
    (a d : list (string * json)) (st : state) : Prop :=
  let annotation := dict_get a "x-netex-collapsed" (JInt 0) in
  ∃ lines errs,
    effect (check5 format_value (JObj a) (reduced_of d)) st lines errs (Ok tt) ∧
    length errs ≤ 1 ∧
    (errs ≠ [] ↔ ¬ is_number annotation (Z.of_nat (collapsed_count d))).

(** No target inside the value of an entry ["$ref": val] is collected. *)
Definition value_not_walked (val : json) : Prop :=
  ∀ name, references val name → name ∉ collect_refs (JObj [("$ref", val)]) ∅.

(** A run that cannot load its after document prints the usage message and
    nothing else, and its exit status is not 0. *)
Definition usage_on_fatal (fs : string → file) (format_value : json → string)
    (ord : set_iteration) (argv : list string) : Prop :=
  let r := run fs format_value ord argv in
  stdout r.1 = [USAGE] ∧ exit_status r.2 ≠ 0%Z.

(** ** Sample documents *)

(** Sets iterated in the order of [elements], and in the reverse order. *)
Definition elements_order : set_iteration :=
  {| iterate := elements; iterate_perm := λ s, reflexivity (elements s) |}.

Definition reverse_order : set_iteration :=
  {| iterate := λ s, reverse (elements s);
     iterate_perm := λ s, reverse_Permutation (elements s) |}.

(** A formatting of the values the samples print: Python's for [None], [bool],
    [int] and [str]; a container or a float is shown by its kind. *)
Definition format_sample (v : json) : string :=
  match v with
  | JNull => "None"
  | JBool true => "True"
  | JBool false => "False"
  | JInt n => pretty n
  | JStr s => s
  | JFloat _ => "<float>"
  | JArr _ => "<list>"
  | JObj _ => "<dict>"
  end.

(** The files of a run, every other path being unreadable. *)
Fixpoint files (l : list (string * file)) (path : string) : file :=
  match l with
  | [] => Unreadable
  | (p, f) :: l' => if String.eqb p path then f else files l' path
  end.

Definition PROG : string := "test-collapse.py".

(** [{"definitions": {"X": {}, "Y": {"x-netex-reduced": ["Z"]}},
      "x-netex-collapsed": 1}] *)
Definition defs_collapsed : list (string * json) :=
  [("X", JObj []); ("Y", JObj [("x-netex-reduced", JArr [JStr "Z"])])].
Definition doc_collapsed : list (string * json) :=
  [("definitions", JObj defs_collapsed); ("x-netex-collapsed", JInt 1)].

(** [{"definitions": {"X": {"items": [{"$ref": "#/definitions/Missing"}]}}}] *)
Definition defs_broken : list (string * json) :=
  [("X", JObj [("items", JArr [JObj [("$ref", JStr "#/definitions/Missing")]])])].
Definition doc_broken : list (string * json) := [("definitions", JObj defs_broken)].

(** Before [{"definitions": {"A": {}, "B": {}}}] and after
    [{"definitions": {"A": {"x-netex-reduced": ["B"],
                            "items": {"$ref": "#/definitions/B"}}},
      "x-netex-collapsed": 1}]. *)
Definition defs_before : list (string * json) := [("A", JObj []); ("B", JObj [])].
Definition doc_before : list (string * json) := [("definitions", JObj defs_before)].
Definition defs_orphan : list (string * json) :=
  [("A", JObj [("x-netex-reduced", JArr [JStr "B"]);
               ("items", JObj [("$ref", JStr "#/definitions/B")])])].
Definition doc_orphan : list (string * json) :=
  [("definitions", JObj defs_orphan); ("x-netex-collapsed", JInt 1)].

(** [{"definitions": {"A": {}, "B": {}, "C": {}}}], one definition more than
    [doc_before]. *)
Definition defs_grown : list (string * json) :=
  [("A", JObj []); ("B", JObj []); ("C", JObj [])].

(** [{"definitions": {"A": {"x-netex-reduced": [1]}}, "x-netex-collapsed": 1}]:
    the annotation of [A] holds a number. *)
Definition doc_unjoinable : list (string * json) :=
  [("definitions", JObj [("A", JObj [("x-netex-reduced", JArr [JInt 1])])]);
   ("x-netex-collapsed", JInt 1)].

(** [{"definitions": {"A": {"x-netex-reduced": []}}, "x-netex-collapsed": true}] *)
Definition defs_one_reduced : list (string * json) :=
  [("A", JObj [("x-netex-reduced", JArr [])])].
Definition doc_true : list (string * json) :=
  [("definitions", JObj defs_one_reduced); ("x-netex-collapsed", JBool true)].

(** [{"$ref": "#/definitions/X"}], the value of the entry
    ["$ref": {"$ref": "#/definitions/X"}]. *)
Definition nested_ref : json := JObj [("$ref", JStr "#/definitions/X")].

(** [{"$ref": "#/definitions/Missing",
      "properties": {"x": {"$ref": "#/definitions/Missing"}},
      "definitions": {"A": {}}}]: references outside the definitions. *)
Definition doc_outside : list (string * json) :=
  [("$ref", JStr "#/definitions/Missing");
   ("properties", JObj [("x", JObj [("$ref", JStr "#/definitions/Missing")])]);
   ("definitions", JObj [("A", JObj [])])].

(** ** The printed report of a run on documents of the expected shape *)

(** The title line, line 52. *)
Definition HEADER (after_path : string) : string :=
  "=== Collapse verification: " +:+ basename after_path +:+ " ===" +:+ NL.

Definition check1_lines (bd : option (list (string * json)))
    (d : list (string * json)) : list string :=
  match bd with
  | Some bd =>
      let before_count := Z.of_nat (length bd) in
      let after_count := Z.of_nat (length d) in
      ["1. Def count: " +:+ pretty before_count +:+ " -> " +:+ pretty after_count +:+
       " (" +:+ pretty (before_count - after_count)%Z +:+ " removed)"]
  | None => [NO_BEFORE_LINE (Z.of_nat (length d))]
  end.

Definition check2_lines (d : list (string * json)) : list string :=
  (NL +:+ "2. Collapsed defs (" +:+ pretty (length (reduced_of d)) +:+ "):")
  :: ((λ entry, "   " +:+ entry.1 +:+ " <- " +:+ joined entry.2)
        <$> sorted_items (reduced_of d)).

Definition check3_lines (ord : set_iteration) (d : list (string * json))
  : list string :=
  (NL +:+ "3. Broken $refs: " +:+ pretty (size (broken_of d)))
  :: ((λ ref, "   BROKEN: " +:+ ref) <$> sorted ord (broken_of d)).

Definition check4_lines (ord : set_iteration)
    (bd : option (list (string * json))) (d : list (string * json)) : list string :=
  match bd with
  | Some bd =>
      (NL +:+ "4. Orphaned targets: " +:+ pretty (size (orphaned_of bd d)))
      :: ((λ name, "   ORPHANED: " +:+ name) <$> sorted ord (orphaned_of bd d))
  | None => [NL +:+ "4. Orphaned targets: (skipped, no before-schema)"]
  end.

Definition check5_lines (format_value : json → string)
    (a d : list (string * json)) : list string :=
  [NL +:+ "5. x-netex-collapsed: " +:+
   format_value (dict_get a "x-netex-collapsed" (JInt 0)) +:+
   " (actual: " +:+ pretty (Z.of_nat (length (reduced_of d))) +:+ ")"].

(** The whole report: the title, the five sections in their order, the
    summary. *)
Definition expected_report (format_value : json → string) (ord : set_iteration)
    (after_path : string) (a d : list (string * json))
    (bd : option (list (string * json))) : list string :=
  [HEADER after_path] ++ check1_lines bd d ++ check2_lines d ++
  check3_lines ord d ++ check4_lines ord bd d ++ check5_lines format_value a d ++
  summary_lines (expected_errors format_value ord a d bd).

(** ** The lines of a run that raises *)

(** A printed string that opens as the failure summary of line 113 does, with
    FAIL and a colon. *)
Definition FAIL_line (line : string) : Prop := ∃ text, line = "FAIL: " +:+ text.

(** [prints Ql m]: whatever the state, every line the statement [m] prints
    satisfies [Ql]. *)
Definition prints {A} (Ql : string → Prop) (m : M A) : Prop :=
  ∀ st, ∃ lines errs r, effect m st lines errs r ∧ Forall Ql lines.

(** [prints_if_raised Ql m]: whatever the state, when the statement [m] ends by
    an exception every line it has printed satisfies [Ql]. *)
Definition prints_if_raised {A} (Ql : string → Prop) (m : M A) : Prop :=
  ∀ st, ∃ lines errs r,
    effect m st lines errs r ∧ ((∃ x, r = Raise x) → Forall Ql lines).

(** The entries of [l] that come before the first one whose annotation cannot
    be joined. *)
Fixpoint joinable_prefix (l : list (string * json)) : list (string * json) :=
  match l with
  | [] => []
  | entry :: l' => if joinable entry.2 then entry :: joinable_prefix l' else []
  end.

(** ** Further sample documents *)

(** Four annotated definitions, out of order; the annotation of [C] holds a
    number. *)
Definition defs_third_unjoinable : list (string * json) :=
  [("B", JObj [("x-netex-reduced", JArr [JStr "x"])]);
   ("D", JObj [("x-netex-reduced", JArr [JStr "z"])]);
   ("C", JObj [("x-netex-reduced", JArr [JInt 1])]);
   ("A", JObj [("x-netex-reduced", JArr [JStr "y"; JStr "w"])])].

(** [{"definitions": [null]}]: the definitions of this document are a list. *)
Definition doc_definitions_list : list (string * json) :=
  [("definitions", JArr [JNull])].

(** Four documents on disk: [doc_broken] and [doc_collapsed] have the
    expected shape, the other two have not. *)
Definition sample_files : string → file :=
  files [("broken.json", Document (JObj doc_broken));
         ("collapsed.json", Document (JObj doc_collapsed));
         ("unjoinable.json", Document (JObj doc_unjoinable));
         ("list.json", Document (JObj doc_definitions_list))].

(** ** Properties of the string primitives *)

Lemma startswith_spec s p : startswith s p = true ↔ ∃ t, s = p +:+ t.
Proof.
  unfold startswith. revert s. induction p as [|a p IH]; intros s; simpl.
  - destruct s; simpl; split; eauto.
  - destruct s as [|b s]; simpl.
    + split; [done|]. intros [t Ht]. discriminate.
    + destruct (Ascii.ascii_dec a b) as [->|Hne].
      * rewrite IH. split; intros [t Ht]; exists t.
        -- by rewrite Ht.
        -- by injection Ht.
      * split; [done|]. intros [t Ht]. injection Ht as ? ?. congruence.
Qed.

Lemma slice_from_app p t : slice_from (String.length p) (p +:+ t) = t.
Proof. induction p as [|a p IH]; simpl; [by destruct t|done]. Qed.

Lemma ref_target_Some key val name :
  ref_target key val = Some name ↔
  key = "$ref" ∧ val = JStr (REF_PREFIX +:+ name).
Proof.
  unfold ref_target. split.
  - destruct val as [| | | |s| |]; try done.
    destruct (String.eqb_spec key "$ref") as [->|]; cbn [andb]; [|done].
    destruct (startswith s REF_PREFIX) eqn:Hp; [|done].
    apply startswith_spec in Hp as [t ->].
    rewrite slice_from_app. intros [= ->]. done.
  - intros [-> ->]. rewrite String.eqb_refl. cbn [andb].
    assert (startswith (REF_PREFIX +:+ name) REF_PREFIX = true) as ->
      by (apply startswith_spec; eauto).
    by rewrite slice_from_app.
Qed.

(** ** The reference collector *)

Lemma entry_in_scalar j key val :
  (∀ items, j ≠ JArr items) → (∀ fields, j ≠ JObj fields) → ¬ entry_in j key val.
Proof.
  intros Harr Hobj H.
  inversion H; subst; [eapply Hobj|eapply Hobj|eapply Harr]; reflexivity.
Qed.

Lemma entry_in_obj_cons k v rest key val :
  entry_in (JObj ((k, v) :: rest)) key val ↔
  (k = key ∧ v = val) ∨ entry_in v key val ∨ entry_in (JObj rest) key val.
Proof.
  split.
  - inversion 1 as [? ? ? Hin|? k' v' ? ? Hin Hsub|]; subst.
    + apply elem_of_cons in Hin as [[= <- <-]|Hin]; [by left|].
      right; right. by constructor.
    + apply elem_of_cons in Hin as [[= <- <-]|Hin]; [by right; left|].
      right; right. by econstructor 2.
  - intros [[-> ->]|[Hsub|Hrest]].
    + constructor. by left.
    + econstructor 2; [by left|done].
    + inversion Hrest; subst.
      * constructor. by right.
      * econstructor 2; [by right|done].
Qed.

Lemma entry_in_obj_nil key val : ¬ entry_in (JObj []) key val.
Proof. inversion 1; subst; by eapply not_elem_of_nil. Qed.

Lemma entry_in_arr_cons item rest key val :
  entry_in (JArr (item :: rest)) key val ↔
  entry_in item key val ∨ entry_in (JArr rest) key val.
Proof.
  split.
  - inversion 1 as [| |? x ? ? Hin Hsub]; subst.
    apply elem_of_cons in Hin as [->|Hin]; [by left|].
    right. by econstructor.
  - intros [Hsub|Hrest].
    + econstructor; [by left|done].
    + inversion Hrest; subst. econstructor; [by right|done].
Qed.

Lemma entry_in_arr_nil key val : ¬ entry_in (JArr []) key val.
Proof. inversion 1; subst; by eapply not_elem_of_nil. Qed.

(** A value whose entry [key: val] passes the guard of line 27 is a string:
    nothing lies inside it. *)
Lemma ref_target_leaf key val name k v :
  ref_target key val = Some name → ¬ entry_in val k v.
Proof.
  intros [_ ->]%ref_target_Some. by apply entry_in_scalar.
Qed.

Lemma ref_target_None_not_ref key val name :
  ref_target key val = None →
  ¬ (key = "$ref" ∧ val = JStr (REF_PREFIX +:+ name)).
Proof.
  intros Hnone Href. apply ref_target_Some in Href. congruence.
Qed.

(** The walk adds to the accumulator exactly the names the value refers to. *)
Lemma collect_refs_elem obj :
  ∀ refs name, name ∈ collect_refs obj refs ↔ name ∈ refs ∨ references obj name.
Proof.
  unfold references.
  induction obj as [| | | | |items IH|fields IH] using json_nested_ind;
    intros refs name;
    try (simpl; split; [by left|intros [?|[]%entry_in_scalar]; done]).
  - simpl. revert refs. induction IH as [|item rest Hitem _ IHrest]; intros refs.
    + simpl. split; [by left|]. by intros [?|?%entry_in_arr_nil].
    + cbn [foldl]. rewrite IHrest, Hitem, entry_in_arr_cons. tauto.
  - simpl. revert refs. induction IH as [|[k v] rest Hv _ IHrest]; intros refs.
    + simpl. split; [by left|]. by intros [?|?%entry_in_obj_nil].
    + cbn [foldl]. rewrite IHrest, entry_in_obj_cons. cbn [fst snd] in *.
      destruct (ref_target k v) as [target|] eqn:Htarget.
      * pose proof (ref_target_leaf _ _ _ "$ref" (JStr (REF_PREFIX +:+ name)) Htarget).
        apply ref_target_Some in Htarget as [-> ->].
        rewrite elem_of_union, elem_of_singleton. split.
        -- intros [[->|?]|?]; auto.
        -- intros [?|[[_ [= Heq]]|[?|?]]]; auto; done.
      * pose proof (ref_target_None_not_ref _ _ name Htarget).
        rewrite Hv. tauto.
Qed.

(** The accumulator only grows, by what a fresh walk would find. *)
Lemma collect_refs_union obj refs :
  collect_refs obj refs = refs ∪ collect_refs obj ∅.
Proof.
  apply set_eq. intros name.
  rewrite elem_of_union, !collect_refs_elem, elem_of_empty. tauto.
Qed.

(** ** Statements and their effects *)

Lemma effect_eq {A} (m : M A) st lines errs lines' errs' r :
  effect m st lines errs r → lines = lines' → errs = errs' →
  effect m st lines' errs' r.
Proof. by intros ? <- <-. Qed.

Lemma effect_eq_result {A} (m : M A) st lines errs r lines' errs' r' :
  effect m st lines errs r → lines = lines' → errs = errs' → r = r' →
  effect m st lines' errs' r'.
Proof. by intros ? <- <- <-. Qed.

Lemma effect_ret {A} (a : A) st : effect (mret a) st [] [] (Ok a).
Proof. unfold effect, mret, M_ret. destruct st. by rewrite !app_nil_r. Qed.

Lemma effect_lift {A} (r : result A) st : effect (lift r) st [] [] r.
Proof. unfold effect, lift. destruct st. by rewrite !app_nil_r. Qed.

Lemma effect_print line st : effect (print line) st [line] [] (Ok tt).
Proof. unfold effect, print. by rewrite app_nil_r. Qed.

Lemma effect_errors_append msg st : effect (errors_append msg) st [] [msg] (Ok tt).
Proof. unfold effect, errors_append. by rewrite app_nil_r. Qed.

Lemma effect_sys_exit code st : effect (sys_exit code) st [] [] (Exit code).
Proof. unfold effect, sys_exit. destruct st. by rewrite !app_nil_r. Qed.

Lemma effect_get_errors st : effect get_errors st [] [] (Ok (errors st)).
Proof. unfold effect, get_errors. destruct st. by rewrite !app_nil_r. Qed.

Lemma effect_bind {A B} (m : M A) (f : A → M B) st l1 e1 a l2 e2 r :
  effect m st l1 e1 (Ok a) →
  effect (f a) {| stdout := stdout st ++ l1; errors := errors st ++ e1 |} l2 e2 r →
  effect (m ≫= f) st (l1 ++ l2) (e1 ++ e2) r.
Proof.
  unfold effect, mbind, M_bind. intros -> ->. simpl. by rewrite !app_assoc.
Qed.

Lemma effect_bind_Raise {A B} (m : M A) (f : A → M B) st l e x :
  effect m st l e (Raise x) → effect (m ≫= f) st l e (Raise x).
Proof. unfold effect, mbind, M_bind. by intros ->. Qed.

Lemma effect_bind_Exit {A B} (m : M A) (f : A → M B) st l e code :
  effect m st l e (Exit code) → effect (m ≫= f) st l e (Exit code).
Proof. unfold effect, mbind, M_bind. by intros ->. Qed.

Lemma effect_bind_lift {A B} (r : result A) (a : A) (f : A → M B) st l e res :
  r = Ok a → effect (f a) st l e res → effect (lift r ≫= f) st l e res.
Proof. intros -> Hf. unfold effect, mbind, M_bind, lift. apply Hf. Qed.

Lemma effect_bind_lift_Raise {A B} (r : result A) (f : A → M B) st x :
  r = Raise x → effect (lift r ≫= f) st [] [] (Raise x).
Proof. intros ->. apply effect_bind_Raise, effect_lift. Qed.

(** A statement has one effect. *)
Lemma effect_inj {A} (m : M A) st l1 e1 r1 l2 e2 r2 :
  effect m st l1 e1 r1 → effect m st l2 e2 r2 → l1 = l2 ∧ e1 = e2 ∧ r1 = r2.
Proof.
  unfold effect. intros -> [= Hl He ->].
  by apply (inj (app _)) in Hl, He.
Qed.

Lemma effect_for_each {A} (l : list A) (body : A → M unit)
    (lines errs : A → list string) st :
  (∀ x st', x ∈ l → effect (body x) st' (lines x) (errs x) (Ok tt)) →
  effect (for_each l body) st (l ≫= lines) (l ≫= errs) (Ok tt).
Proof.
  revert st. induction l as [|x l IH]; intros st Hbody; simpl.
  - apply effect_ret.
  - eapply effect_bind.
    + apply Hbody. by left.
    + apply IH. intros y st' Hy. apply Hbody. by right.
Qed.

Lemma list_bind_one {A B} (f : A → B) (l : list A) : l ≫= (λ x, [f x]) = f <$> l.
Proof. induction l; simpl; by f_equal. Qed.

Lemma list_bind_none {A B} (l : list A) : l ≫= (λ _, @nil B) = [].
Proof. by induction l. Qed.

(** The loops of the checks 3 and 4: a line and a message for every member. *)
Lemma effect_report_each (l : list string) (line msg : string → string) st :
  effect (for_each l (λ x, print (line x);; errors_append (msg x))) st
    (line <$> l) (msg <$> l) (Ok tt).
Proof.
  eapply effect_eq.
  - apply (effect_for_each l _ (λ x, [line x]) (λ x, [msg x])).
    intros x st' _. eapply effect_eq.
    + eapply effect_bind; [apply effect_print|apply effect_errors_append].
    + done.
    + done.
  - apply list_bind_one.
  - apply list_bind_one.
Qed.

(** The loop of the summary. *)
Lemma effect_print_each (l : list string) (line : string → string) st :
  effect (for_each l (λ x, print (line x))) st (line <$> l) [] (Ok tt).
Proof.
  eapply effect_eq.
  - apply (effect_for_each l _ (λ x, [line x]) (λ _, [])).
    intros x st' _. apply effect_print.
  - apply list_bind_one.
  - apply list_bind_none.
Qed.

(** ** Sets and [sorted] *)

Lemma sorted_Permutation ord s : sorted ord s ≡ₚ elements s.
Proof. unfold sorted. by rewrite merge_sort_Permutation, iterate_perm. Qed.

Lemma elem_of_sorted ord s name : name ∈ sorted ord s ↔ name ∈ s.
Proof. by rewrite sorted_Permutation, elem_of_elements. Qed.

Lemma NoDup_sorted ord s : NoDup (sorted ord s).
Proof. rewrite sorted_Permutation. apply NoDup_elements. Qed.

Lemma length_sorted ord s : length (sorted ord s) = size s.
Proof. by rewrite sorted_Permutation. Qed.

Lemma sorted_empty ord : sorted ord ∅ = [].
Proof.
  apply Permutation_nil_r. by rewrite sorted_Permutation, elements_empty.
Qed.

(** The sorted list does not depend on the order of iteration. *)
Lemma sorted_iteration ord1 ord2 s : sorted ord1 s = sorted ord2 s.
Proof.
  apply (Sorted_unique String.le).
  - apply (Sorted_merge_sort String.le).
  - apply (Sorted_merge_sort String.le).
  - by rewrite !sorted_Permutation.
Qed.

(** ** The loops of the checks 2 and 3 *)

Lemma foldl_collect_refs (d : list (string * json)) (refs : gset string) :
  foldl (λ all_refs entry, collect_refs entry.2 all_refs) refs d
  = refs ∪ targets_of d.
Proof.
  unfold targets_of. revert refs. induction d as [|entry d IH]; intros refs; simpl.
  - by rewrite (right_id_L ∅ (∪)).
  - rewrite IH, collect_refs_union. by rewrite (assoc_L (∪)).
Qed.

Lemma all_refs_of_targets d : all_refs_of d = targets_of d.
Proof. unfold all_refs_of. by rewrite foldl_collect_refs, (left_id_L ∅ (∪)). Qed.

Lemma elem_of_targets_of d name :
  name ∈ targets_of d ↔ ∃ entry, entry ∈ d ∧ references entry.2 name.
Proof.
  unfold targets_of. rewrite elem_of_union_list. split.
  - intros (X & (entry & -> & Hentry)%list_elem_of_fmap & Hname).
    exists entry. split; [done|].
    apply collect_refs_elem in Hname as [[]%elem_of_empty|]; done.
  - intros (entry & Hentry & Href). exists (collect_refs entry.2 ∅). split.
    + apply list_elem_of_fmap. eauto.
    + apply collect_refs_elem. by right.
Qed.

Lemma dict_set_fresh (d : list (string * json)) key v :
  key ∉ d.*1 → dict_set d key v = d ++ [(key, v)].
Proof.
  induction d as [|[k x] d IH]; simpl; [done|].
  rewrite not_elem_of_cons. intros [Hne Hd].
  destruct (String.eqb_spec k key); [done|]. by rewrite IH.
Qed.

Lemma reduced_entry_name entry r : reduced_entry entry = Some r → r.1 = entry.1.
Proof.
  unfold reduced_entry. destruct entry.2; try done.
  destruct (dict_lookup _ _); simpl; [|done]. by intros [= <-].
Qed.

Lemma omap_reduced_entry_names d :
  (omap reduced_entry d).*1 ⊆ d.*1.
Proof.
  induction d as [|entry d IH]; simpl; [done|].
  destruct (reduced_entry entry) as [r|] eqn:Hr; simpl.
  - rewrite (reduced_entry_name _ _ Hr). by apply list_subseteq_skip.
  - by apply list_subseteq_cons.
Qed.

Lemma record_reduced_entry acc entry :
  record_reduced acc entry =
  match reduced_entry entry with
  | Some r => dict_set acc r.1 r.2
  | None => acc
  end.
Proof.
  unfold record_reduced, reduced_entry. destruct entry.2; try done.
  by destruct (dict_lookup _ _).
Qed.

(** With distinct names, no assignment of line 70 overwrites an earlier one. *)
Lemma foldl_reduced (d acc : list (string * json)) :
  NoDup (acc.*1 ++ d.*1) →
  foldl record_reduced acc d = acc ++ omap reduced_entry d.
Proof.
  revert acc. induction d as [|entry d IH]; intros acc Hnodup.
  - simpl. by rewrite app_nil_r.
  - apply NoDup_app in Hnodup as (Hacc & Hdisj & Hd).
    rewrite fmap_cons in Hd. apply NoDup_cons in Hd as [Hfresh Hd].
    assert (entry.1 ∉ acc.*1) as Hnew.
    { intros Hin. apply (Hdisj _ Hin). by left. }
    assert (NoDup (acc.*1 ++ d.*1)) as Hskip.
    { apply NoDup_app. split_and!; [done| |done].
      intros x Hx Hxd. apply (Hdisj x Hx). by right. }
    cbn [foldl omap list_omap]. rewrite record_reduced_entry.
    destruct (reduced_entry entry) as [r|] eqn:Hr; [|by apply IH].
    pose proof (reduced_entry_name _ _ Hr) as Hname.
    rewrite dict_set_fresh by (by rewrite Hname). rewrite IH.
    + destruct r. by rewrite <- app_assoc.
    + rewrite fmap_app. simpl. rewrite <- app_assoc. simpl.
      apply NoDup_app. split_and!; [done| |by rewrite Hname; constructor].
      intros x Hx Hxd. apply (Hdisj x Hx). by rewrite fmap_cons, <- Hname.
Qed.

Lemma reduced_of_wf d : dict_wf d → reduced_of d = omap reduced_entry d.
Proof. intros Hwf. unfold reduced_of. by rewrite foldl_reduced. Qed.

Lemma reduced_entry_carries entry :
  is_Some (reduced_entry entry) ↔ carries_reduced entry.2 = true.
Proof.
  unfold reduced_entry, carries_reduced.
  destruct entry.2; try (split; [by intros [? ?]|done]).
  by rewrite bool_decide_eq_true, fmap_is_Some.
Qed.

Lemma length_omap_reduced_entry d :
  length (omap reduced_entry d) = collapsed_count d.
Proof.
  unfold collapsed_count. induction d as [|entry d IH]; [done|].
  rewrite filter_cons. cbn [omap list_omap].
  destruct (decide (carries_reduced entry.2 = true)) as [Hyes|Hno].
  - apply reduced_entry_carries in Hyes as [r ->]. simpl. by f_equal.
  - destruct (reduced_entry entry) eqn:Hr; [|done].
    destruct Hno. apply reduced_entry_carries. eauto.
Qed.

(** The count of check 2 is the number of annotated entries. *)
Lemma length_reduced_of d :
  dict_wf d → length (reduced_of d) = collapsed_count d.
Proof. intros Hwf. by rewrite reduced_of_wf, length_omap_reduced_entry. Qed.

(** ** The effect of each check *)

Local Ltac effect_step :=
  first
    [ apply effect_lift
    | apply effect_print
    | apply effect_errors_append
    | apply effect_ret
    | apply effect_report_each
    | apply effect_print_each
    | eapply effect_bind_lift; [eassumption || exact eq_refl|]
    | eapply effect_bind; [effect_step|] ].

Local Ltac effect_steps := repeat effect_step.

Lemma check1_not_supplied fs before_path after_count st :
  before_path = None ∨ before_path = Some "" →
  effect (check1 fs before_path after_count) st
    [NO_BEFORE_LINE after_count] [] (Ok None).
Proof.
  intros [->| ->]; unfold check1; [|rewrite bool_decide_eq_false_2 by auto];
    (eapply effect_eq; [effect_steps|done..]).
Qed.

Lemma check1_supplied fs path before before_defs before_count after_count st :
  path ≠ "" →
  fs path = Document before →
  py_get before "definitions" (JObj []) = Ok before_defs →
  py_len before_defs = Ok before_count →
  let removed := (before_count - after_count)%Z in
  effect (check1 fs (Some path) after_count) st
    ["1. Def count: " +:+ pretty before_count +:+ " -> " +:+ pretty after_count +:+
     " (" +:+ pretty removed +:+ " removed)"]
    (if (removed <? 0)%Z
     then ["Def count increased by " +:+ pretty (- removed)%Z] else [])
    (Ok (Some before)).
Proof.
  intros Hpath Hfs Hget Hlen removed. unfold check1.
  rewrite bool_decide_eq_true_2 by done.
  assert (load fs path = Ok before) as Hload by (unfold load; by rewrite Hfs).
  subst removed. destruct (before_count - after_count <? 0)%Z eqn:Hneg;
    (eapply effect_eq; [effect_steps; cbn zeta; rewrite Hneg; effect_steps|done..]).
Qed.

Lemma elem_of_sorted_items d entry : entry ∈ sorted_items d ↔ entry ∈ d.
Proof. unfold sorted_items. by rewrite merge_sort_Permutation. Qed.

(** The loop of lines 73-74 when every annotation can be joined. *)
Lemma effect_collapsed_lines (l : list (string * json)) st :
  forallb (λ entry, joinable entry.2) l = true →
  effect (for_each l (λ entry,
            text ← lift (py_join ", " entry.2);
            print ("   " +:+ entry.1 +:+ " <- " +:+ text))) st
    ((λ entry, "   " +:+ entry.1 +:+ " <- " +:+ joined entry.2) <$> l) []
    (Ok tt).
Proof.
  intros Hjoin. eapply effect_eq.
  - apply (effect_for_each l _
             (λ entry, ["   " +:+ entry.1 +:+ " <- " +:+ joined entry.2])
             (λ _, [])).
    intros entry st' Hentry.
    rewrite forallb_forall in Hjoin.
    apply list_elem_of_In, Hjoin in Hentry. unfold joinable, joined in *.
    destruct (py_join ", " entry.2) as [text| |] eqn:Htext; try discriminate Hentry.
    apply (effect_bind_lift _ text); [done|]. apply effect_print.
  - apply list_bind_one.
  - apply list_bind_none.
Qed.

Lemma check2_effect d st :
  forallb (λ entry, joinable entry.2) (reduced_of d) = true →
  effect (check2 (JObj d)) st
    ((NL +:+ "2. Collapsed defs (" +:+ pretty (length (reduced_of d)) +:+ "):")
     :: ((λ entry, "   " +:+ entry.1 +:+ " <- " +:+ joined entry.2)
           <$> sorted_items (reduced_of d)))
    [] (Ok (reduced_of d)).
Proof.
  intros Hjoin. unfold check2. eapply effect_eq.
  - effect_steps. eapply effect_bind.
    + apply effect_collapsed_lines.
      apply forallb_forall. intros entry Hentry.
      rewrite forallb_forall in Hjoin. apply Hjoin.
      by rewrite <- list_elem_of_In, <- elem_of_sorted_items, list_elem_of_In.
    + apply (effect_ret (reduced_of d)).
  - simpl. by rewrite app_nil_r.
  - done.
Qed.

Lemma check3_effect ord d st :
  effect (check3 ord (JObj d)) st
    ((NL +:+ "3. Broken $refs: " +:+ pretty (size (broken_of d)))
     :: ((λ ref, "   BROKEN: " +:+ ref) <$> sorted ord (broken_of d)))
    (check3_errors ord d) (Ok (targets_of d)).
Proof.
  unfold check3, check3_errors. cbn [py_items py_keys].
  eapply effect_eq.
  - effect_steps. cbn zeta. rewrite all_refs_of_targets.
    fold (names_of d). fold (broken_of d).
    eapply effect_bind; [|apply effect_ret].
    case_bool_decide as Hbroken; [apply effect_report_each|].
    rewrite Hbroken, sorted_empty. apply effect_ret.
  - cbn [app]. rewrite app_nil_r, all_refs_of_targets. reflexivity.
  - cbn [app]. by rewrite app_nil_r.
Qed.

Lemma check4_skipped ord after_defs all_refs st :
  effect (check4 ord None after_defs all_refs) st
    [NL +:+ "4. Orphaned targets: (skipped, no before-schema)"] [] (Ok tt).
Proof. apply effect_print. Qed.

Lemma check4_effect ord b bd d st :
  dict_get b "definitions" (JObj []) = JObj bd →
  effect (check4 ord (Some (JObj b)) (JObj d) (targets_of d)) st
    ((NL +:+ "4. Orphaned targets: " +:+ pretty (size (orphaned_of bd d)))
     :: ((λ name, "   ORPHANED: " +:+ name) <$> sorted ord (orphaned_of bd d)))
    (check4_errors ord (Some bd) d) (Ok tt).
Proof.
  intros Hbd. unfold check4, check4_errors. cbn [py_get py_keys]. rewrite Hbd.
  eapply effect_eq.
  - effect_steps. cbn zeta.
    fold (names_of d). fold (names_of bd). fold (orphaned_of bd d).
    case_bool_decide as Horphaned; [apply effect_report_each|].
    rewrite Horphaned, sorted_empty. apply effect_ret.
  - done.
  - done.
Qed.

Lemma check5_effect format_value a reduced_defs st :
  let annotation := dict_get a "x-netex-collapsed" (JInt 0) in
  let actual := Z.of_nat (length reduced_defs) in
  effect (check5 format_value (JObj a) reduced_defs) st
    [NL +:+ "5. x-netex-collapsed: " +:+ format_value annotation +:+
     " (actual: " +:+ pretty actual +:+ ")"]
    (if py_ne_int annotation actual
     then ["x-netex-collapsed mismatch: annotation=" +:+ format_value annotation +:+
           ", actual=" +:+ pretty actual]
     else [])
    (Ok tt).
Proof.
  intros annotation actual. unfold check5. cbn [py_get].
  fold annotation. subst actual.
  destruct (py_ne_int annotation _) eqn:Hne;
    (eapply effect_eq; [effect_steps; cbn zeta; rewrite Hne; effect_steps|done..]).
Qed.

Lemma summary_effect st :
  effect summary st (summary_lines (errors st)) [] (summary_result (errors st)).
Proof.
  unfold summary, summary_lines, summary_result.
  destruct (errors st) as [|err errs] eqn:Heq.
  - eapply effect_eq.
    + eapply effect_bind; [apply effect_print|].
      eapply effect_bind; [apply effect_get_errors|].
      cbn [errors]. rewrite app_nil_r, Heq. apply effect_print.
    + done.
    + done.
  - eapply effect_eq.
    + eapply effect_bind; [apply effect_print|].
      eapply effect_bind; [apply effect_get_errors|].
      cbn [errors]. rewrite app_nil_r, Heq.
      eapply effect_bind; [apply effect_print|].
      eapply effect_bind; [apply effect_print_each|apply effect_sys_exit].
    + cbn [app]. by rewrite app_nil_r.
    + done.
Qed.

(** ** A run on documents of the expected shape *)

Lemma before_definitions_Some fs rest bd :
  before_definitions fs rest = Some (Some bd) →
  ∃ path b, head rest = Some path ∧ path ≠ "" ∧
            fs path = Document (JObj b) ∧
            dict_get b "definitions" (JObj []) = JObj bd.
Proof.
  unfold before_definitions. destruct (head rest) as [path|]; [|done].
  case_bool_decide as Hpath; [|done].
  destruct (fs path) as [| |[| | | | | |b]] eqn:Hfs; try done.
  destruct (dict_get b "definitions" (JObj [])) eqn:Hbd; try done.
  intros [= <-]. eauto 10.
Qed.

Lemma before_definitions_None fs rest :
  before_definitions fs rest = Some None →
  head rest = None ∨ head rest = Some "".
Proof.
  unfold before_definitions. destruct (head rest) as [path|]; [|by left].
  case_bool_decide as Hpath.
  - destruct (fs path) as [| |[| | | | | |b]]; try done.
    by destruct (dict_get b "definitions" (JObj [])).
  - subst path. by right.
Qed.

Lemma main_shaped fs format_value ord prog after_path rest a d bd :
  shaped fs after_path rest a d bd →
  let errs := expected_errors format_value ord a d bd in
  ∃ lines,
    run fs format_value ord (prog :: after_path :: rest) =
    ({| stdout := lines ++ summary_lines errs; errors := errs |},
     summary_result errs).
Proof.
  intros [Hafter Hdefs Hbefore Hjoin] errs. unfold run, main.
  assert (load fs after_path = Ok (JObj a)) as Hload
    by (unfold load; by rewrite Hafter).
  assert (py_get (JObj a) "definitions" (JObj []) = Ok (JObj d)) as Hget
    by (simpl; by rewrite Hdefs).
  assert (∃ before l1,
    effect (check1 fs (head rest) (Z.of_nat (length d)))
      {| stdout := [] ++ ["=== Collapse verification: " +:+ basename after_path +:+
                          " ===" +:+ NL];
         errors := [] ++ [] |}
      l1 (check1_errors bd d) (Ok before) ∧
    ∃ l4, ∀ st, effect (check4 ord before (JObj d) (targets_of d)) st
                  l4 (check4_errors ord bd d) (Ok tt)) as (before & l1 & H1 & l4 & H4).
  { destruct bd as [bd|].
    - apply before_definitions_Some in Hbefore as (path & b & -> & Hpath & Hfs & Hbd).
      eexists _, _. split.
      + eapply (check1_supplied fs path (JObj b) (JObj bd)); [done..| |done].
        simpl. by rewrite Hbd.
      + eexists. intros st. by apply check4_effect.
    - apply before_definitions_None in Hbefore.
      eexists _, _. split; [by apply check1_not_supplied|].
      eexists. intros st. apply check4_skipped. }
  enough (∃ lines, effect (main fs format_value ord (prog :: after_path :: rest))
                     initial (lines ++ summary_lines errs) errs (summary_result errs))
    as [lines Hmain] by (exists lines; exact Hmain).
  unfold main.
  eexists. eapply effect_eq_result.
  - eapply (effect_bind_lift _ _ _ _ _ _ _ Hload).
    eapply (effect_bind_lift _ _ _ _ _ _ _ Hget).
    eapply (effect_bind_lift _ (Z.of_nat (length d))); [done|].
    eapply effect_bind; [apply effect_print|].
    eapply effect_bind; [apply H1|].
    eapply effect_bind; [by apply check2_effect|].
    eapply effect_bind; [apply check3_effect|].
    eapply effect_bind; [apply H4|].
    eapply effect_bind; [apply check5_effect|].
    apply summary_effect.
  - match goal with
    | |- context [summary_lines ?final] => replace final with errs
    end.
    + rewrite !app_assoc. reflexivity.
    + cbn [errors stdout initial app]. rewrite !app_nil_r, <- !app_assoc.
      reflexivity.
  - cbn [app]. rewrite !app_nil_r. reflexivity.
  - f_equal. cbn [errors stdout initial app]. rewrite !app_nil_r, <- !app_assoc.
    reflexivity.
Qed.

(** ** Runs that raise *)

Lemma load_not_Exit fs path code : load fs path ≠ Exit code.
Proof. unfold load. by destruct (fs path). Qed.

Lemma py_get_Ok obj key default v :
  py_get obj key default = Ok v → ∃ d, obj = JObj d ∧ v = dict_get d key default.
Proof. destruct obj; try done. intros [= <-]. eauto. Qed.

Lemma py_get_not_Ok obj key default :
  (∀ d, obj ≠ JObj d) → py_get obj key default = Raise AttributeError.
Proof. intros Hobj. destruct obj; try done. by destruct (Hobj fields). Qed.

Lemma py_join_not_Exit sep targets code : py_join sep targets ≠ Exit code.
Proof.
  destruct targets as [| | | | |items|]; try done.
  simpl. by destruct (all_strings items).
Qed.

Lemma not_joinable_raises targets :
  joinable targets = false → ∃ x, py_join ", " targets = Raise x.
Proof.
  unfold joinable. destruct (py_join ", " targets) as [|x|code] eqn:Hjoin.
  - done.
  - eauto.
  - by apply py_join_not_Exit in Hjoin.
Qed.

(** The loop of lines 73-74 stops at the first annotation that cannot be
    joined. *)
Lemma effect_collapsed_lines_raise (l : list (string * json)) st :
  forallb (λ entry, joinable entry.2) l = false →
  ∃ lines x,
    effect (for_each l (λ entry,
              text ← lift (py_join ", " entry.2);
              print ("   " +:+ entry.1 +:+ " <- " +:+ text))) st
      lines [] (Raise x).
Proof.
  revert st. induction l as [|entry l IH]; intros st; [done|].
  cbn [forallb for_each]. destruct (joinable entry.2) eqn:Hentry; cbn [andb].
  - intros Hrest. unfold joinable in Hentry.
    destruct (py_join ", " entry.2) as [text| |] eqn:Htext; try done.
    destruct (IH {| stdout := stdout st ++ ["   " +:+ entry.1 +:+ " <- " +:+ text];
                    errors := errors st ++ [] |} Hrest) as (lines & x & Hraise).
    eexists _, x. eapply effect_eq.
    + eapply effect_bind; [|apply Hraise].
      apply (effect_bind_lift _ text); [done|]. apply effect_print.
    + done.
    + done.
  - intros _. apply not_joinable_raises in Hentry as [x Hx].
    exists [], x. apply effect_bind_Raise. by apply effect_bind_lift_Raise.
Qed.

Lemma forallb_sorted_items (P : string * json → bool) d :
  forallb P (sorted_items d) = forallb P d.
Proof.
  apply eq_true_iff_eq. rewrite !forallb_forall.
  split; intros HP entry Hentry; apply HP;
    by rewrite <- list_elem_of_In, elem_of_sorted_items, list_elem_of_In in *.
Qed.

Lemma check2_not_joinable d st :
  forallb (λ entry, joinable entry.2) (reduced_of d) = false →
  ∃ lines x, effect (check2 (JObj d)) st lines [] (Raise x).
Proof.
  intros Hjoin. unfold check2.
  rewrite <- forallb_sorted_items in Hjoin.
  edestruct effect_collapsed_lines_raise as (lines & x & Hraise); [exact Hjoin|].
  eexists _, x. eapply effect_eq.
  - eapply (effect_bind_lift _ d); [done|].
    eapply effect_bind; [apply effect_print|].
    apply effect_bind_Raise, Hraise.
  - done.
  - done.
Qed.

Lemma check2_not_dict after_defs st :
  (∀ d, after_defs ≠ JObj d) →
  effect (check2 after_defs) st [] [] (Raise AttributeError).
Proof.
  intros Hdefs. unfold check2. apply effect_bind_lift_Raise.
  destruct after_defs; try done. by destruct (Hdefs fields).
Qed.

Lemma check4_not_dict ord b before_defs after_defs all_refs st :
  dict_get b "definitions" (JObj []) = before_defs →
  (∀ bd, before_defs ≠ JObj bd) →
  effect (check4 ord (Some (JObj b)) after_defs all_refs) st [] []
    (Raise AttributeError).
Proof.
  intros Hget Hdefs. unfold check4.
  eapply (effect_bind_lift _ before_defs); [simpl; by rewrite Hget|].
  apply effect_bind_lift_Raise.
  destruct before_defs; try done. by destruct (Hdefs fields).
Qed.

(** How check 1 ends: without a before document, with one that has
    definitions with a length, or by an exception. *)
Lemma check1_cases fs before_path after_count st :
  ∃ lines errs r,
    effect (check1 fs before_path after_count) st lines errs r ∧
    ((r = Ok None ∧ (before_path = None ∨ before_path = Some "")) ∨
     (∃ path b before_count,
        r = Ok (Some (JObj b)) ∧ before_path = Some path ∧ path ≠ "" ∧
        fs path = Document (JObj b) ∧
        py_len (dict_get b "definitions" (JObj [])) = Ok before_count) ∨
     (∃ x, r = Raise x)).
Proof.
  destruct before_path as [path|].
  2: { eexists _, _, _. split; [apply check1_not_supplied; by left|]. left. auto. }
  destruct (decide (path = "")) as [->|Hpath].
  { eexists _, _, _. split; [apply check1_not_supplied; by right|]. left. auto. }
  assert (∀ x, load fs path = Raise x →
               effect (check1 fs (Some path) after_count) st [] [] (Raise x))
    as Hload.
  { intros x Hx. unfold check1. rewrite bool_decide_eq_true_2 by done.
    by apply effect_bind_lift_Raise. }
  destruct (fs path) as [| |before] eqn:Hfs.
  - eexists _, _, _. split; [apply Hload; unfold load; by rewrite Hfs|eauto].
  - eexists _, _, _. split; [apply Hload; unfold load; by rewrite Hfs|eauto].
  - assert (load fs path = Ok before) as Hbefore by (unfold load; by rewrite Hfs).
    destruct (py_get before "definitions" (JObj [])) as [before_defs|x|code] eqn:Hget.
    + destruct (py_len before_defs) as [before_count|x|code] eqn:Hlen.
      * eexists _, _, _. split; [by eapply check1_supplied|].
        right; left. apply py_get_Ok in Hget as (b & -> & ->). eauto 10.
      * eexists _, _, _. split; [|eauto].
        unfold check1. rewrite bool_decide_eq_true_2 by done.
        eapply effect_bind_lift; [exact Hbefore|].
        eapply effect_bind_lift; [exact Hget|].
        by apply effect_bind_lift_Raise.
      * by destruct before_defs.
    + eexists _, _, _. split; [|eauto].
      unfold check1. rewrite bool_decide_eq_true_2 by done.
      eapply effect_bind_lift; [exact Hbefore|].
      by apply effect_bind_lift_Raise.
    + by destruct before.
Qed.

Lemma py_len_Ok_shape v n :
  py_len v = Ok n → (∃ d, v = JObj d) ∨ (∀ d, v ≠ JObj d).
Proof. destruct v; eauto. Qed.

(** A run on loaded documents either raises or works on documents of the
    expected shape. *)
Lemma main_raises_or_shaped fs format_value ord prog after_path rest :
  (∃ lines errs x,
     effect (main fs format_value ord (prog :: after_path :: rest)) initial
       lines errs (Raise x)) ∨
  (∃ a d bd, shaped fs after_path rest a d bd).
Proof.
  unfold main.
  destruct (fs after_path) as [| |after] eqn:Hafter.
  { left. eexists _, _, _. apply effect_bind_lift_Raise.
    unfold load. by rewrite Hafter. }
  { left. eexists _, _, _. apply effect_bind_lift_Raise.
    unfold load. by rewrite Hafter. }
  assert (load fs after_path = Ok after) as Hload
    by (unfold load; by rewrite Hafter).
  destruct (py_get after "definitions" (JObj [])) as [after_defs|x|code] eqn:Hget.
  2: { left. eexists _, _, _. eapply effect_bind_lift; [exact Hload|].
       by apply effect_bind_lift_Raise. }
  2: { by destruct after. }
  apply py_get_Ok in Hget as Hshape. destruct Hshape as (a & -> & Hdefs).
  destruct (py_len after_defs) as [after_count|x|code] eqn:Hlen.
  2: { left. eexists _, _, _. eapply effect_bind_lift; [exact Hload|].
       eapply effect_bind_lift; [exact Hget|].
       by apply effect_bind_lift_Raise. }
  2: { by destruct after_defs. }
  destruct (check1_cases fs (head rest) after_count
              {| stdout := stdout initial ++
                   ["=== Collapse verification: " +:+ basename after_path +:+
                    " ===" +:+ NL];
                 errors := errors initial ++ [] |})
    as (l1 & e1 & r1 & H1 & Hr1).
  (* check 1 raises *)
  destruct Hr1 as [Hr1|[Hr1|[x ->]]].
  3: { left. eexists _, _, _. eapply effect_bind_lift; [exact Hload|].
       eapply effect_bind_lift; [exact Hget|].
       eapply effect_bind_lift; [exact Hlen|].
       eapply effect_bind; [apply effect_print|].
       apply effect_bind_Raise, H1. }
  (* the definitions of the after document are not a dict *)
  all: destruct (py_len_Ok_shape _ _ Hlen) as [[d ->]|Hnot].
  2,4: assert (∃ before, r1 = Ok before) as [before ->]
         by (first [destruct Hr1 as [-> _]|destruct Hr1 as (? & ? & ? & -> & _)];
             eauto);
       left; eexists _, _, _; (eapply effect_bind_lift; [exact Hload|]);
       (eapply effect_bind_lift; [exact Hget|]);
       (eapply effect_bind_lift; [exact Hlen|]);
       (eapply effect_bind; [apply effect_print|]);
       (eapply effect_bind; [apply H1|]);
       apply effect_bind_Raise; by apply check2_not_dict.
  (* an annotation cannot be joined *)
  all: destruct (forallb (λ entry, joinable entry.2) (reduced_of d)) eqn:Hjoin.
  2,4: assert (∃ before, r1 = Ok before) as [before ->]
         by (first [destruct Hr1 as [-> _]|destruct Hr1 as (? & ? & ? & -> & _)];
             eauto);
       left;
       edestruct check2_not_joinable as (l2 & x & H2); [exact Hjoin|];
       eexists _, _, _; (eapply effect_bind_lift; [exact Hload|]);
       (eapply effect_bind_lift; [exact Hget|]);
       (eapply effect_bind_lift; [exact Hlen|]);
       (eapply effect_bind; [apply effect_print|]);
       (eapply effect_bind; [apply H1|]);
       apply effect_bind_Raise; apply H2.
  - (* no before document *)
    destruct Hr1 as [-> Hnone]. right. exists a, d, None. split; try done.
    unfold before_definitions. by destruct Hnone as [->| ->].
  - (* a before document *)
    destruct Hr1 as (path & b & before_count & -> & Hpath & Hne & Hfs & Hblen).
    destruct (py_len_Ok_shape _ _ Hblen) as [[bd Hbd]|Hbnot].
    + right. exists a, d, (Some bd). split; try done.
      unfold before_definitions.
      by rewrite Hpath, bool_decide_eq_true_2, Hfs, Hbd.
    + left. eexists _, _, _. eapply effect_bind_lift; [exact Hload|].
      eapply effect_bind_lift; [exact Hget|].
      eapply effect_bind_lift; [exact Hlen|].
      eapply effect_bind; [apply effect_print|].
      eapply effect_bind; [apply H1|].
      eapply effect_bind; [by apply check2_effect|].
      eapply effect_bind; [apply check3_effect|].
      apply effect_bind_Raise. by eapply check4_not_dict.
Qed.

(** The state and the result of a run from its effect. *)
Lemma run_effect fs format_value ord argv lines errs r :
  effect (main fs format_value ord argv) initial lines errs r →
  run fs format_value ord argv = ({| stdout := lines; errors := errs |}, r).
Proof. intros Hmain. exact Hmain. Qed.

(** ** Messages appended by a statement *)

Section triples.
Variable Q : string → Prop.

Lemma triple_lift {A} (r : result A) (P : A → Prop) :
  (∀ a, r = Ok a → P a) → triple Q (lift r) P.
Proof. intros HP st. eexists _, _, _. split; [apply effect_lift|]. auto. Qed.

Lemma triple_ret {A} (a : A) (P : A → Prop) : P a → triple Q (mret a) P.
Proof.
  intros HP st. eexists _, _, _. split; [apply effect_ret|].
  split; [done|]. by intros ? [= <-].
Qed.

Lemma triple_print line : triple Q (print line) (λ _, True).
Proof. intros st. eexists _, _, _. split; [apply effect_print|]. auto. Qed.

Lemma triple_errors_append msg :
  Q msg → triple Q (errors_append msg) (λ _, True).
Proof.
  intros Hmsg st. eexists _, _, _. split; [apply effect_errors_append|]. auto.
Qed.

Lemma triple_sys_exit code : triple Q (sys_exit code) (λ _, True).
Proof. intros st. eexists _, _, _. split; [apply effect_sys_exit|]. auto. Qed.

Lemma triple_get_errors : triple Q get_errors (λ _, True).
Proof. intros st. eexists _, _, _. split; [apply effect_get_errors|]. auto. Qed.

Lemma triple_bind {A B} (m : M A) (f : A → M B) (P : A → Prop) (P' : B → Prop) :
  triple Q m P → (∀ a, P a → triple Q (f a) P') → triple Q (m ≫= f) P'.
Proof.
  intros Hm Hf st. destruct (Hm st) as (l1 & e1 & r1 & H1 & HQ1 & HP).
  destruct r1 as [a|x|code].
  - destruct (Hf a (HP a eq_refl)
                {| stdout := stdout st ++ l1; errors := errors st ++ e1 |})
      as (l2 & e2 & r2 & H2 & HQ2 & HP2).
    eexists _, _, _. split; [by eapply effect_bind|].
    split; [by apply Forall_app|done].
  - eexists _, _, _. split; [by apply effect_bind_Raise|]. done.
  - eexists _, _, _. split; [by apply effect_bind_Exit|]. done.
Qed.

Lemma triple_weaken {A} (m : M A) (P P' : A → Prop) :
  triple Q m P → (∀ a, P a → P' a) → triple Q m P'.
Proof.
  intros Hm HP st. destruct (Hm st) as (l & e & r & H & HQ & Ha).
  eexists _, _, _. eauto.
Qed.

Lemma triple_for_each {A} (l : list A) (body : A → M unit) :
  (∀ x, x ∈ l → triple Q (body x) (λ _, True)) →
  triple Q (for_each l body) (λ _, True).
Proof.
  induction l as [|x l IH]; intros Hbody; simpl.
  - by apply triple_ret.
  - eapply triple_bind; [apply Hbody; by left|].
    intros _ _. apply IH. intros y Hy. apply Hbody. by right.
Qed.

(** The messages of a run. *)
Lemma triple_run fs format_value ord argv :
  triple Q (main fs format_value ord argv) (λ _, True) →
  Forall Q (errors (run fs format_value ord argv).1).
Proof.
  intros Hmain. destruct (Hmain initial) as (l & e & r & H & HQ & _).
  unfold run. by rewrite H.
Qed.
End triples.

Lemma triple_check1 (Q : string → Prop) fs before_path after_count :
  (∀ n : Z, Q ("Def count increased by " +:+ pretty n)) →
  triple Q (check1 fs before_path after_count) (λ _, True).
Proof.
  intros HQ. unfold check1.
  assert (triple Q
            (print ("1. Def count: " +:+ pretty after_count +:+
                    " (no before-schema for comparison)");; mret None)
            (λ _ : option json, True)) as Hnone.
  { eapply triple_bind; [apply triple_print|]. intros _ _. by apply triple_ret. }
  destruct before_path as [path|]; [|done]. case_bool_decide; [|done].
  eapply triple_bind; [by apply (triple_lift _ _ (λ _, True))|]. intros before _.
  eapply triple_bind; [by apply (triple_lift _ _ (λ _, True))|]. intros before_defs _.
  eapply triple_bind; [by apply (triple_lift _ _ (λ _, True))|]. intros before_count _.
  cbn zeta.
  eapply triple_bind; [apply triple_print|]. intros _ _.
  eapply (triple_bind _ _ _ (λ _, True)); [|intros _ _; by apply triple_ret].
  destruct (_ <? 0)%Z; [by apply triple_errors_append|by apply triple_ret].
Qed.

Lemma triple_check2 (Q : string → Prop) after_defs :
  triple Q (check2 after_defs) (λ _, True).
Proof.
  unfold check2.
  eapply triple_bind; [by apply (triple_lift _ _ (λ _, True))|]. intros items _.
  cbn zeta. eapply triple_bind; [apply triple_print|]. intros _ _.
  eapply triple_bind; [|intros _ _; by apply triple_ret].
  apply triple_for_each. intros entry _.
  eapply triple_bind; [by apply (triple_lift _ _ (λ _, True))|]. intros text _.
  apply triple_print.
Qed.

Lemma py_items_Ok obj items : py_items obj = Ok items → obj = JObj items.
Proof. destruct obj; try done. by intros [= ->]. Qed.

Lemma py_keys_Ok obj keys : py_keys obj = Ok keys → ∃ d, obj = JObj d ∧ keys = d.*1.
Proof. destruct obj; try done. intros [= <-]. eauto. Qed.

Lemma triple_check3 (Q : string → Prop) ord after_defs :
  (∀ d ref, after_defs = JObj d → ref ∈ broken_of d → Q ("Broken $ref: " +:+ ref)) →
  triple Q (check3 ord after_defs)
    (λ all_refs, ∃ d, after_defs = JObj d ∧ all_refs = targets_of d).
Proof.
  intros HQ. unfold check3.
  eapply triple_bind; [apply (triple_lift _ _ (λ items, after_defs = JObj items))|].
  { apply py_items_Ok. }
  intros d ->. cbn [py_keys].
  eapply triple_bind; [apply (triple_lift _ _ (λ keys, keys = d.*1)); by intros ? [= <-]|].
  intros keys ->. cbn zeta. rewrite all_refs_of_targets.
  fold (names_of d). fold (broken_of d).
  eapply triple_bind; [apply triple_print|]. intros _ _.
  eapply (triple_bind _ _ _ (λ _, True)); [|intros _ _; apply triple_ret; eauto].
  case_bool_decide; [|by apply triple_ret].
  apply triple_for_each. intros ref Href%elem_of_sorted.
  eapply triple_bind; [apply triple_print|]. intros _ _.
  apply triple_errors_append. by eapply HQ.
Qed.

Lemma triple_check4 (Q : string → Prop) ord before d :
  (∀ bd name, name ∈ orphaned_of bd d → Q ("Orphaned target: " +:+ name)) →
  triple Q (check4 ord before (JObj d) (targets_of d)) (λ _, True).
Proof.
  intros HQ. unfold check4. destruct before as [before|]; [|apply triple_print].
  eapply triple_bind; [by apply (triple_lift _ _ (λ _, True))|]. intros before_defs _.
  eapply triple_bind;
    [apply (triple_lift _ _ (λ keys, ∃ bd : list (string * json), keys = bd.*1))|].
  { intros keys (bd & _ & ->)%py_keys_Ok. eauto. }
  intros ? [bd ->]. cbn [py_keys].
  eapply triple_bind; [apply (triple_lift _ _ (λ keys, keys = d.*1)); by intros ? [= <-]|].
  intros keys ->. cbn zeta.
  fold (names_of d). fold (names_of bd). fold (orphaned_of bd d).
  eapply triple_bind; [apply triple_print|]. intros _ _.
  case_bool_decide; [|by apply triple_ret].
  apply triple_for_each. intros name Hname%elem_of_sorted.
  eapply triple_bind; [apply triple_print|]. intros _ _.
  apply triple_errors_append. by eapply HQ.
Qed.

Lemma triple_check5 (Q : string → Prop) format_value after reduced_defs :
  (∀ text, Q ("x-netex-collapsed mismatch: annotation=" +:+ text)) →
  triple Q (check5 format_value after reduced_defs) (λ _, True).
Proof.
  intros HQ. unfold check5.
  eapply triple_bind; [by apply (triple_lift _ _ (λ _, True))|]. intros annotation _.
  cbn zeta. eapply triple_bind; [apply triple_print|]. intros _ _.
  destruct (py_ne_int _ _); [|by apply triple_ret].
  apply triple_errors_append.
  apply HQ.
Qed.

Lemma triple_summary (Q : string → Prop) : triple Q summary (λ _, True).
Proof.
  unfold summary. eapply triple_bind; [apply triple_print|]. intros _ _.
  eapply triple_bind; [apply triple_get_errors|]. intros errs _.
  destruct errs; [apply triple_print|].
  eapply triple_bind; [apply triple_print|]. intros _ _.
  eapply triple_bind; [|intros _ _; apply triple_sys_exit].
  apply triple_for_each. intros err _. apply triple_print.
Qed.

(** The messages of [main] on an after document that is an object. *)
Lemma triple_main (Q : string → Prop) fs format_value ord argv :
  (∀ n : Z, Q ("Def count increased by " +:+ pretty n)) →
  (∀ text, Q ("x-netex-collapsed mismatch: annotation=" +:+ text)) →
  (∀ prog after_path rest a d ref,
     argv = prog :: after_path :: rest →
     fs after_path = Document (JObj a) →
     dict_get a "definitions" (JObj []) = JObj d →
     ref ∈ broken_of d → Q ("Broken $ref: " +:+ ref)) →
  (∀ prog after_path rest a d bd name,
     argv = prog :: after_path :: rest →
     fs after_path = Document (JObj a) →
     dict_get a "definitions" (JObj []) = JObj d →
     name ∈ orphaned_of bd d → Q ("Orphaned target: " +:+ name)) →
  triple Q (main fs format_value ord argv) (λ _, True).
Proof.
  intros Hcount Hmismatch Hbroken Horphaned. unfold main.
  assert (triple Q (print USAGE;; sys_exit 1) (λ _, True)) as Husage.
  { eapply triple_bind; [apply triple_print|]. intros _ _. apply triple_sys_exit. }
  destruct argv as [|prog [|after_path rest]]; [done..|].
  eapply triple_bind;
    [apply (triple_lift _ _ (λ after, fs after_path = Document after))|].
  { unfold load. by destruct (fs after_path); intros ? [= <-]. }
  intros after Hafter.
  eapply triple_bind;
    [apply (triple_lift _ _ (λ after_defs, ∃ a, after = JObj a ∧
                               after_defs = dict_get a "definitions" (JObj [])))|].
  { intros after_defs. apply py_get_Ok. }
  intros after_defs (a & -> & Hdefs).
  eapply triple_bind; [by apply (triple_lift _ _ (λ _, True))|]. intros after_count _.
  eapply triple_bind; [apply triple_print|]. intros _ _.
  eapply triple_bind; [by apply triple_check1|]. intros before _.
  eapply triple_bind; [apply triple_check2|]. intros reduced_defs _.
  eapply triple_bind.
  { apply triple_check3. intros d ref -> Href. by eapply Hbroken. }
  intros all_refs (d & -> & ->).
  eapply triple_bind.
  { apply triple_check4. intros bd name Hname. by eapply Horphaned. }
  intros _ _.
  eapply triple_bind; [by apply triple_check5|]. intros _ _.
  apply triple_summary.
Qed.

(** ** The order of iteration over sets *)

Lemma bind_ext {A B} (m1 m2 : M A) (f g : A → M B) st :
  (∀ st', m1 st' = m2 st') → (∀ a st', f a st' = g a st') →
  (m1 ≫= f) st = (m2 ≫= g) st.
Proof.
  intros Hm Hf. unfold mbind, M_bind. rewrite Hm.
  by destruct (m2 st) as [st' [a| |]].
Qed.

Lemma check3_iteration ord1 ord2 after_defs st :
  check3 ord1 after_defs st = check3 ord2 after_defs st.
Proof.
  unfold check3. apply bind_ext; [done|]. intros items st1.
  apply bind_ext; [done|]. intros keys st2. cbn zeta.
  by rewrite (sorted_iteration ord1 ord2).
Qed.

Lemma check4_iteration ord1 ord2 before after_defs all_refs st :
  check4 ord1 before after_defs all_refs st
  = check4 ord2 before after_defs all_refs st.
Proof.
  unfold check4. destruct before as [before|]; [|done].
  apply bind_ext; [done|]. intros before_defs st1.
  apply bind_ext; [done|]. intros before_keys st2.
  apply bind_ext; [done|]. intros after_keys st3. cbn zeta.
  by rewrite (sorted_iteration ord1 ord2).
Qed.

Lemma main_iteration fs format_value ord1 ord2 argv st :
  main fs format_value ord1 argv st = main fs format_value ord2 argv st.
Proof.
  unfold main. destruct argv as [|prog [|after_path rest]]; [done..|].
  apply bind_ext; [done|]. intros after st1.
  apply bind_ext; [done|]. intros after_defs st2.
  apply bind_ext; [done|]. intros after_count st3.
  apply bind_ext; [done|]. intros _ st4.
  apply bind_ext; [done|]. intros before st5.
  apply bind_ext; [done|]. intros reduced_defs st6.
  apply bind_ext; [apply check3_iteration|]. intros all_refs st7.
  apply bind_ext; [apply check4_iteration|]. done.
Qed.

(** A run reads the files named on the command line only. *)
Lemma check1_files fs1 fs2 before_path after_count st :
  (∀ path, before_path = Some path → fs1 path = fs2 path) →
  check1 fs1 before_path after_count st = check1 fs2 before_path after_count st.
Proof.
  intros Hfs. unfold check1. destruct before_path as [path|]; [|done].
  case_bool_decide; [|done].
  apply bind_ext; [|done]. intros st'. unfold load. by rewrite (Hfs path).
Qed.

Lemma main_files fs1 fs2 format_value ord argv st :
  (∀ path, path ∈ argv → fs1 path = fs2 path) →
  main fs1 format_value ord argv st = main fs2 format_value ord argv st.
Proof.
  intros Hfs. unfold main. destruct argv as [|prog [|after_path rest]]; [done..|].
  apply bind_ext.
  { intros st'. unfold load. rewrite (Hfs after_path); [done|].
    apply elem_of_cons. right. by left. }
  intros after st1.
  apply bind_ext; [done|]. intros after_defs st2.
  apply bind_ext; [done|]. intros after_count st3.
  apply bind_ext; [done|]. intros _ st4.
  apply bind_ext; [|done]. intros st'. apply check1_files.
  intros path Hpath. apply Hfs. do 2 (apply elem_of_cons; right).
  destruct rest as [|first rest]; [done|]. injection Hpath as ->. by left.
Qed.

(** ** Runs that end before the checks *)

Lemma run_usage fs format_value ord argv :
  length argv < 2 →
  run fs format_value ord argv = ({| stdout := [USAGE]; errors := [] |}, Exit 1).
Proof.
  intros Hargv. destruct argv as [|prog [|after_path rest]]; [done..|].
  simpl in Hargv. lia.
Qed.

Lemma run_not_loaded fs format_value ord prog after_path rest :
  fs after_path = Unreadable ∨ fs after_path = Malformed →
  ∃ x, run fs format_value ord (prog :: after_path :: rest)
       = ({| stdout := []; errors := [] |}, Raise x).
Proof.
  intros Hfs. unfold run, main, load, mbind, M_bind, lift.
  destruct Hfs as [-> | ->]; eauto.
Qed.

(** ** The lines printed by a statement *)

Section printing.
Variable Ql : string → Prop.

Lemma prints_lift {A} (r : result A) : prints Ql (lift r).
Proof. intros st. eexists _, _, _. split; [apply effect_lift|done]. Qed.

Lemma prints_ret {A} (a : A) : prints Ql (mret a).
Proof. intros st. eexists _, _, _. split; [apply effect_ret|done]. Qed.

Lemma prints_print line : Ql line → prints Ql (print line).
Proof.
  intros Hline st. eexists _, _, _. split; [apply effect_print|]. by constructor.
Qed.

Lemma prints_errors_append msg : prints Ql (errors_append msg).
Proof. intros st. eexists _, _, _. split; [apply effect_errors_append|done]. Qed.

Lemma prints_bind {A B} (m : M A) (f : A → M B) :
  prints Ql m → (∀ a, prints Ql (f a)) → prints Ql (m ≫= f).
Proof.
  intros Hm Hf st. destruct (Hm st) as (l1 & e1 & r1 & H1 & HQ1).
  destruct r1 as [a|x|code].
  - destruct (Hf a {| stdout := stdout st ++ l1; errors := errors st ++ e1 |})
      as (l2 & e2 & r2 & H2 & HQ2).
    eexists _, _, _. split; [by eapply effect_bind|]. by apply Forall_app.
  - eexists _, _, _. split; [by apply effect_bind_Raise|done].
  - eexists _, _, _. split; [by apply effect_bind_Exit|done].
Qed.

Lemma prints_for_each {A} (l : list A) (body : A → M unit) :
  (∀ x, prints Ql (body x)) → prints Ql (for_each l body).
Proof.
  intros Hbody. induction l as [|x l IH]; simpl.
  - apply prints_ret.
  - apply prints_bind; [apply Hbody|]. intros _. apply IH.
Qed.

Lemma prints_if_raised_bind {A B} (m : M A) (f : A → M B) :
  prints Ql m → (∀ a, prints_if_raised Ql (f a)) → prints_if_raised Ql (m ≫= f).
Proof.
  intros Hm Hf st. destruct (Hm st) as (l1 & e1 & r1 & H1 & HQ1).
  destruct r1 as [a|x|code].
  - destruct (Hf a {| stdout := stdout st ++ l1; errors := errors st ++ e1 |})
      as (l2 & e2 & r2 & H2 & HQ2).
    eexists _, _, _. split; [by eapply effect_bind|].
    intros Hraised. apply Forall_app. auto.
  - eexists _, _, _. split; [by apply effect_bind_Raise|done].
  - eexists _, _, _. split; [by apply effect_bind_Exit|done].
Qed.

(** The summary raises nothing. *)
Lemma prints_if_raised_summary : prints_if_raised Ql summary.
Proof.
  intros st. eexists _, _, _. split; [apply summary_effect|].
  intros [x Hx]. by destruct (errors st).
Qed.
End printing.

Lemma not_FAIL_line c rest : c ≠ "F"%char → ¬ FAIL_line (String c rest).
Proof. intros Hc [text [= Heq _]]. done. Qed.

Local Ltac not_fail :=
  unfold NL; simpl; apply not_FAIL_line; vm_compute; discriminate.

Lemma prints_check1 fs before_path after_count :
  prints (λ line, ¬ FAIL_line line) (check1 fs before_path after_count).
Proof.
  unfold check1.
  assert (prints (λ line, ¬ FAIL_line line)
            (print ("1. Def count: " +:+ pretty after_count +:+
                    " (no before-schema for comparison)");; mret (@None json)))
    as Hnone.
  { apply prints_bind; [apply prints_print; not_fail|].
    intros _. apply prints_ret. }
  destruct before_path as [path|]; [|done]. case_bool_decide; [|done].
  apply prints_bind; [apply prints_lift|]. intros before.
  apply prints_bind; [apply prints_lift|]. intros before_defs.
  apply prints_bind; [apply prints_lift|]. intros before_count. cbn zeta.
  apply prints_bind; [apply prints_print; not_fail|]. intros _.
  apply prints_bind; [|intros _; apply prints_ret].
  destruct (_ <? 0)%Z; [apply prints_errors_append|apply prints_ret].
Qed.

Lemma prints_check2 after_defs :
  prints (λ line, ¬ FAIL_line line) (check2 after_defs).
Proof.
  unfold check2.
  apply prints_bind; [apply prints_lift|]. intros items. cbn zeta.
  apply prints_bind; [apply prints_print; not_fail|]. intros _.
  apply prints_bind; [|intros _; apply prints_ret].
  apply prints_for_each. intros entry.
  apply prints_bind; [apply prints_lift|]. intros text.
  apply prints_print. not_fail.
Qed.

Lemma prints_check3 ord after_defs :
  prints (λ line, ¬ FAIL_line line) (check3 ord after_defs).
Proof.
  unfold check3.
  apply prints_bind; [apply prints_lift|]. intros items. cbn zeta.
  apply prints_bind; [apply prints_lift|]. intros keys.
  apply prints_bind; [apply prints_print; not_fail|]. intros _.
  apply prints_bind; [|intros _; apply prints_ret].
  case_bool_decide; [|apply prints_ret].
  apply prints_for_each. intros ref.
  apply prints_bind; [apply prints_print; not_fail|]. intros _.
  apply prints_errors_append.
Qed.

Lemma prints_check4 ord before after_defs all_refs :
  prints (λ line, ¬ FAIL_line line) (check4 ord before after_defs all_refs).
Proof.
  unfold check4. destruct before as [before|]; [|apply prints_print; not_fail].
  apply prints_bind; [apply prints_lift|]. intros before_defs.
  apply prints_bind; [apply prints_lift|]. intros before_keys.
  apply prints_bind; [apply prints_lift|]. intros after_keys. cbn zeta.
  apply prints_bind; [apply prints_print; not_fail|]. intros _.
  case_bool_decide; [|apply prints_ret].
  apply prints_for_each. intros name.
  apply prints_bind; [apply prints_print; not_fail|]. intros _.
  apply prints_errors_append.
Qed.

Lemma prints_check5 format_value after reduced_defs :
  prints (λ line, ¬ FAIL_line line) (check5 format_value after reduced_defs).
Proof.
  unfold check5.
  apply prints_bind; [apply prints_lift|]. intros annotation. cbn zeta.
  apply prints_bind; [apply prints_print; not_fail|]. intros _.
  destruct (py_ne_int _ _); [apply prints_errors_append|apply prints_ret].
Qed.

(** A run that ends by an exception has not reached the summary: none of its
    lines is the FAIL line. *)
Lemma main_raised_prints_no_FAIL fs format_value ord prog after_path rest :
  prints_if_raised (λ line, ¬ FAIL_line line)
    (main fs format_value ord (prog :: after_path :: rest)).
Proof.
  unfold main.
  apply prints_if_raised_bind; [apply prints_lift|]. intros after.
  apply prints_if_raised_bind; [apply prints_lift|]. intros after_defs.
  apply prints_if_raised_bind; [apply prints_lift|]. intros after_count.
  apply prints_if_raised_bind; [apply prints_print; not_fail|]. intros _.
  apply prints_if_raised_bind; [apply prints_check1|]. intros before.
  apply prints_if_raised_bind; [apply prints_check2|]. intros reduced_defs.
  apply prints_if_raised_bind; [apply prints_check3|]. intros all_refs.
  apply prints_if_raised_bind; [apply prints_check4|]. intros _.
  apply prints_if_raised_bind; [apply prints_check5|]. intros _.
  apply prints_if_raised_summary.
Qed.

Lemma run_raised_prints_no_FAIL fs format_value ord prog after_path rest x :
  (run fs format_value ord (prog :: after_path :: rest)).2 = Raise x →
  ∀ line, line ∈ stdout (run fs format_value ord (prog :: after_path :: rest)).1 →
          ¬ FAIL_line line.
Proof.
  destruct (main_raised_prints_no_FAIL fs format_value ord prog after_path rest
              initial) as (lines & errs & r & Hmain & Hlines).
  apply run_effect in Hmain. rewrite Hmain. cbn [fst snd stdout].
  intros ->. apply Forall_forall, Hlines. eauto.
Qed.

Lemma shaped_run_completes fs format_value ord prog after_path rest a d bd :
  shaped fs after_path rest a d bd →
  ∀ x, (run fs format_value ord (prog :: after_path :: rest)).2 ≠ Raise x.
Proof.
  intros Hshaped x.
  destruct (main_shaped fs format_value ord prog after_path rest a d bd Hshaped)
    as [lines ->].
  cbn [snd]. by destruct (expected_errors format_value ord a d bd).
Qed.

(** ** Supporting facts for the properties *)

Lemma length_expected_errors format_value ord a d bd :
  length (expected_errors format_value ord a d bd) = problem_count a d bd.
Proof.
  unfold expected_errors, problem_count, check1_errors, check3_errors,
    check4_errors, check5_errors.
  rewrite !length_app, !length_fmap, length_sorted.
  destruct bd as [bd|].
  - rewrite length_fmap, length_sorted.
    destruct (_ <? 0)%Z; destruct (py_ne_int _ _); simpl; lia.
  - destruct (py_ne_int _ _); simpl; lia.
Qed.

Lemma py_ne_int_false v n :
  py_ne_int v n = false ↔
  is_number v n ∨ ∃ b, v = JBool b ∧ Z.b2z b = n.
Proof.
  unfold is_number. destruct v as [|b|z|f| | |]; simpl.
  - split; [done|]. intros [[?|(? & ? & _)]|(? & ? & _)]; done.
  - rewrite negb_false_iff, Z.eqb_eq. split; [eauto|].
    intros [[?|(? & ? & _)]|(? & [= <-] & ?)]; done.
  - rewrite negb_false_iff, Z.eqb_eq. split; [by intros ->; auto|].
    intros [[[= ->]|(? & ? & _)]|(? & ? & _)]; done.
  - rewrite negb_false_iff. split; [eauto|].
    intros [[?|(? & [= <-] & ?)]|(? & ? & _)]; done.
  - split; [done|]. intros [[?|(? & ? & _)]|(? & ? & _)]; done.
  - split; [done|]. intros [[?|(? & ? & _)]|(? & ? & _)]; done.
  - split; [done|]. intros [[?|(? & ? & _)]|(? & ? & _)]; done.
Qed.

Lemma entry_in_mentions j key val : entry_in j key val → mentions key j = true.
Proof.
  induction 1 as [fields key val Hin|fields k v key val Hin _ IH
                  |items item key val Hin _ IH]; simpl.
  - apply existsb_exists. exists (key, val). split; [by apply list_elem_of_In|].
    simpl. by rewrite String.eqb_refl.
  - apply existsb_exists. exists (k, v). split; [by apply list_elem_of_In|].
    simpl. by rewrite IH, orb_true_r.
  - apply existsb_exists. exists item. split; [by apply list_elem_of_In|done].
Qed.

Lemma no_mention_no_reference (d : list (string * json)) :
  forallb (λ entry, negb (mentions "$ref" entry.2)) d = true →
  ∀ entry val, entry ∈ d → ¬ entry_in entry.2 "$ref" val.
Proof.
  rewrite forallb_forall. intros Hd entry val Hentry Hin.
  apply list_elem_of_In, Hd in Hentry. apply entry_in_mentions in Hin.
  by rewrite Hin in Hentry.
Qed.

Lemma targets_of_no_reference d :
  (∀ entry val, entry ∈ d → ¬ entry_in entry.2 "$ref" val) → targets_of d = ∅.
Proof.
  intros Hd. apply set_eq. intros name.
  rewrite elem_of_targets_of, elem_of_empty. split; [|done].
  intros (entry & Hentry & Href). by eapply Hd.
Qed.

(** ** The sample runs of the specification *)

(** Scenario A: one collapsed definition, the annotation agrees. *)
Example scenario_A :
  run (files [("after.json", Document (JObj doc_collapsed))]) format_sample
    elements_order [PROG; "dir/after.json"; ""]
  = ({| stdout := []; errors := [] |}, Raise OSError) ∧
  run (files [("after.json", Document (JObj doc_collapsed))]) format_sample
    elements_order [PROG; "after.json"]
  = ({| stdout :=
          ["=== Collapse verification: after.json ===" +:+ NL;
           "1. Def count: 2 (no before-schema for comparison)";
           NL +:+ "2. Collapsed defs (1):";
           "   Y <- Z";
           NL +:+ "3. Broken $refs: 0";
           NL +:+ "4. Orphaned targets: (skipped, no before-schema)";
           NL +:+ "5. x-netex-collapsed: 1 (actual: 1)";
           SEPARATOR;
           "PASS: all checks passed"];
        errors := [] |}, Ok tt).
Proof. split; vm_compute; reflexivity. Qed.

(** Scenario B: a reference to a definition that does not exist. *)
Example scenario_B :
  let r := run (files [("after.json", Document (JObj doc_broken))]) format_sample
             elements_order [PROG; "after.json"] in
  errors r.1 = ["Broken $ref: Missing"] ∧ r.2 = Exit 1 ∧
  (NL +:+ "3. Broken $refs: 1") ∈ stdout r.1 ∧
  "   BROKEN: Missing" ∈ stdout r.1.
Proof. vm_compute. split_and!; try reflexivity; repeat constructor. Qed.

(** Scenario C: a removed definition that is still a target. *)
Example scenario_C :
  let r := run (files [("after.json", Document (JObj doc_orphan));
                       ("before.json", Document (JObj doc_before))])
             format_sample elements_order [PROG; "after.json"; "before.json"] in
  errors r.1 = ["Broken $ref: B"; "Orphaned target: B"] ∧ r.2 = Exit 1 ∧
  "1. Def count: 2 -> 1 (1 removed)" ∈ stdout r.1 ∧
  "   ORPHANED: B" ∈ stdout r.1.
Proof. vm_compute. split_and!; try reflexivity; repeat constructor. Qed.

(** Scenario D: no definitions at all. *)
Example scenario_D :
  let r := run (files [("after.json",
                        Document (JObj [("definitions", JObj []);
                                        ("x-netex-collapsed", JInt 0)]))])
             format_sample reverse_order [PROG; "after.json"] in
  errors r.1 = [] ∧ exit_status r.2 = 0%Z.
Proof. vm_compute. split; reflexivity. Qed.

(** ** The properties of the specification *)

(** C6.  For every JSON value the collector returns the set of the names
    [name] such that some mapping entry of the value's transitive structure has
    the key ["$ref"] and the string value ["#/definitions/" ++ name]: what the
    guard of line 27 captures is exactly the text after the prefix, and the
    walk adds to the accumulator exactly the names so referenced. *)
Theorem collect_refs_references :
  ∀ (obj : json) (refs : gset string),
    (∀ name, name ∈ collect_refs obj refs ↔
             name ∈ refs ∨
             ∃ key val, entry_in obj key val ∧ key = "$ref" ∧
                        val = JStr ("#/definitions/" +:+ name)) ∧
    collect_refs obj refs = refs ∪ collect_refs obj ∅ ∧
    (∀ key val name, ref_target key val = Some name ↔
                     key = "$ref" ∧ val = JStr ("#/definitions/" +:+ name)).
Proof.
  intros obj refs. split_and!.
  - intros name. rewrite collect_refs_elem. unfold references. split.
    + intros [?|?]; [by left|]. right. eauto.
    + intros [?|(key & val & Hin & -> & ->)]; [by left|by right].
  - apply collect_refs_union.
  - intros key val name. apply ref_target_Some.
Qed.

(** C7, as stated, fails: the value of the entry
    ["$ref": {"$ref": "#/definitions/X"}] is not a string, the guard of line 27
    rejects the entry, and the [else] branch of line 30 walks the value and
    collects [X]. *)
Lemma nested_ref_is_walked :
  ref_target "$ref" nested_ref = None ∧ ¬ value_not_walked nested_ref.
Proof.
  split; [reflexivity|]. intros Hclaim. apply (Hclaim "X").
  - unfold references, nested_ref. constructor. by left.
  - vm_compute. reflexivity.
Qed.

(** C7, amended.  An entry with the key ["$ref"] that fails the guard of line
    27 is not itself a reference, and its value is walked like any other
    value: the entry contributes exactly the targets found inside its value,
    which is nothing when the value is a string or another scalar. *)
Theorem rejected_ref_entry :
  ∀ (val : json) (rest : list (string * json)) (refs : gset string),
    ref_target "$ref" val = None →
    collect_refs (JObj (("$ref", val) :: rest)) refs
    = collect_refs (JObj rest) (collect_refs val refs) ∧
    (∀ name, name ∈ collect_refs (JObj [("$ref", val)]) ∅ ↔ references val name) ∧
    ((∀ items, val ≠ JArr items) → (∀ fields, val ≠ JObj fields) →
     collect_refs (JObj [("$ref", val)]) refs = refs).
Proof.
  intros val rest refs Hguard. split_and!.
  - cbn [collect_refs foldl fst snd]. by rewrite Hguard.
  - intros name. cbn [collect_refs foldl fst snd]. rewrite Hguard.
    rewrite collect_refs_elem, elem_of_empty. tauto.
  - intros Harr Hobj. cbn [collect_refs foldl fst snd]. rewrite Hguard.
    destruct val; try done; [by destruct (Harr items)|by destruct (Hobj fields)].
Qed.

Lemma rejected_ref_entry_witness :
  ref_target "$ref" (JStr "other.json#/definitions/X") = None ∧
  collect_refs (JObj [("$ref", JStr "other.json#/definitions/X")]) ∅ = ∅.
Proof.
  split; [reflexivity|].
  apply (rejected_ref_entry (JStr "other.json#/definitions/X") [] ∅);
    [reflexivity|discriminate|discriminate].
Defined.

(** C2.  Check 3 on the definitions [d] of the after document: the set of
    broken references is the union of the targets collected over the entries
    of [d] minus the names of [d]; one message is recorded per member of that
    set; and the set of targets is what the check hands on.  When no entry of
    the definitions has the key ["$ref"] anywhere, the check reports 0 broken
    references and records nothing. *)
Theorem check3_broken_references :
  ∀ (ord : set_iteration) (d : list (string * json)) (st : state),
    let targets : gset string := ⋃ ((λ entry, collect_refs entry.2 ∅) <$> d) in
    let broken : gset string := targets ∖ list_to_set d.*1 in
    (∃ names,
       effect (check3 ord (JObj d)) st
         ((NL +:+ "3. Broken $refs: " +:+ pretty (size broken))
          :: ((λ ref, "   BROKEN: " +:+ ref) <$> names))
         ((λ ref, "Broken $ref: " +:+ ref) <$> names)
         (Ok targets) ∧
       NoDup names ∧ (∀ name, name ∈ names ↔ name ∈ broken) ∧
       length names = size broken) ∧
    ((∀ entry val, entry ∈ d → ¬ entry_in entry.2 "$ref" val) →
     effect (check3 ord (JObj d)) st [NL +:+ "3. Broken $refs: 0"] [] (Ok ∅)).
Proof.
  intros ord d st targets broken. split.
  - exists (sorted ord (broken_of d)). split_and!.
    + apply check3_effect.
    + apply NoDup_sorted.
    + intros name. apply elem_of_sorted.
    + apply length_sorted.
  - intros Hnone. pose proof (check3_effect ord d st) as Hcheck.
    unfold check3_errors in Hcheck.
    assert (broken_of d = ∅) as Hbroken.
    { unfold broken_of. rewrite (targets_of_no_reference d Hnone).
      apply set_eq. intros name. rewrite elem_of_difference, elem_of_empty. tauto. }
    rewrite Hbroken, sorted_empty, (targets_of_no_reference d Hnone) in Hcheck.
    exact Hcheck.
Qed.

Lemma check3_broken_references_witness :
  (∀ entry val, entry ∈ defs_collapsed → ¬ entry_in entry.2 "$ref" val) ∧
  effect (check3 elements_order (JObj defs_collapsed)) initial
    [NL +:+ "3. Broken $refs: 0"] [] (Ok ∅).
Proof.
  assert (∀ entry val, entry ∈ defs_collapsed → ¬ entry_in entry.2 "$ref" val)
    as Hnone by (apply no_mention_no_reference; reflexivity).
  split; [exact Hnone|].
  apply (check3_broken_references elements_order defs_collapsed initial), Hnone.
Defined.

(** C5.  Check 1, the after document having the definitions [d].  With a before
    document whose definitions are [bd], [removed] is the number of before
    definitions minus the number of after definitions, and one message, giving
    the size of the increase, is recorded exactly when [removed < 0].  Without
    a before document ([before_path] is [None] or empty) nothing is recorded. *)
Theorem check1_count_delta :
  ∀ (fs : string → file) (d : list (string * json)) (st : state),
    let after_count := Z.of_nat (length d) in
    py_len (JObj d) = Ok after_count ∧
    (∀ path b bd,
       path ≠ "" →
       fs path = Document (JObj b) →
       dict_get b "definitions" (JObj []) = JObj bd →
       let before_count := Z.of_nat (length bd) in
       let removed := (before_count - after_count)%Z in
       ∃ errs,
         effect (check1 fs (Some path) after_count) st
           ["1. Def count: " +:+ pretty before_count +:+ " -> " +:+
            pretty after_count +:+ " (" +:+ pretty removed +:+ " removed)"]
           errs (Ok (Some (JObj b))) ∧
         ((removed < 0)%Z →
          errs = ["Def count increased by " +:+ pretty (- removed)%Z]) ∧
         ((0 ≤ removed)%Z → errs = [])) ∧
    (∀ before_path,
       before_path = None ∨ before_path = Some "" →
       effect (check1 fs before_path after_count) st
         [NO_BEFORE_LINE after_count] [] (Ok None)).
Proof.
  intros fs d st after_count. split_and!; [done| |].
  - intros path b bd Hpath Hfs Hbd before_count removed.
    eexists. split.
    + eapply (check1_supplied fs path (JObj b) (JObj bd)); [done..| |done].
      simpl. by rewrite Hbd.
    + fold before_count after_count removed.
      destruct (removed <? 0)%Z eqn:Hneg; split; try done.
      * apply Z.ltb_lt in Hneg. lia.
      * apply Z.ltb_ge in Hneg. lia.
  - intros before_path Hnone. by apply check1_not_supplied.
Qed.

Lemma check1_count_delta_witness :
  files [("before.json", Document (JObj doc_before))] "before.json"
  = Document (JObj doc_before) ∧
  dict_get doc_before "definitions" (JObj []) = JObj defs_before ∧
  effect (check1 (files [("before.json", Document (JObj doc_before))])
            (Some "before.json") (Z.of_nat (length defs_grown))) initial
    ["1. Def count: 2 -> 3 (-1 removed)"] ["Def count increased by 1"]
    (Ok (Some (JObj doc_before))).
Proof.
  split; [reflexivity|]. split; [reflexivity|].
  destruct (check1_count_delta (files [("before.json", Document (JObj doc_before))])
              defs_grown initial) as (_ & Hsupplied & _).
  destruct (Hsupplied "before.json" doc_before defs_before)
    as (errs & Heffect & Hneg & _); [discriminate|reflexivity..|].
  rewrite Hneg in Heffect by (vm_compute; reflexivity). exact Heffect.
Defined.

(** C4.  Check 4, the after document having the definitions [d].  With a before
    document whose definitions are [bd], the set of orphans is the names of
    [bd] that are not names of [d], intersected with the set of targets check 3
    hands on, and one message is recorded per orphan.  Without a before
    document the check is reported as skipped and records nothing. *)
Theorem check4_orphaned_targets :
  ∀ (ord : set_iteration) (d : list (string * json)) (st : state),
    let targets : gset string := ⋃ ((λ entry, collect_refs entry.2 ∅) <$> d) in
    (∀ st', (check3 ord (JObj d) st').2 = Ok targets) ∧
    (∀ b bd,
       dict_get b "definitions" (JObj []) = JObj bd →
       let removed_names : gset string := list_to_set bd.*1 ∖ list_to_set d.*1 in
       let orphaned := removed_names ∩ targets in
       ∃ names,
         effect (check4 ord (Some (JObj b)) (JObj d) targets) st
           ((NL +:+ "4. Orphaned targets: " +:+ pretty (size orphaned))
            :: ((λ name, "   ORPHANED: " +:+ name) <$> names))
           ((λ name, "Orphaned target: " +:+ name) <$> names)
           (Ok tt) ∧
         NoDup names ∧ (∀ name, name ∈ names ↔ name ∈ orphaned) ∧
         length names = size orphaned) ∧
    (∀ after_defs all_refs,
       effect (check4 ord None after_defs all_refs) st
         [NL +:+ "4. Orphaned targets: (skipped, no before-schema)"] [] (Ok tt)).
Proof.
  intros ord d st targets. split_and!.
  - intros st'. by rewrite (check3_effect ord d st').
  - intros b bd Hbd removed_names orphaned.
    exists (sorted ord (orphaned_of bd d)). split_and!.
    + by apply check4_effect.
    + apply NoDup_sorted.
    + intros name. apply elem_of_sorted.
    + apply length_sorted.
  - intros after_defs all_refs. apply check4_skipped.
Qed.

Lemma check4_orphaned_targets_witness :
  dict_get doc_before "definitions" (JObj []) = JObj defs_before ∧
  ∃ names,
    effect (check4 elements_order (Some (JObj doc_before)) (JObj defs_orphan)
              (targets_of defs_orphan)) initial
      ((NL +:+ "4. Orphaned targets: " +:+
        pretty (size (orphaned_of defs_before defs_orphan)))
       :: ((λ name, "   ORPHANED: " +:+ name) <$> names))
      ((λ name, "Orphaned target: " +:+ name) <$> names)
      (Ok tt) ∧
    NoDup names ∧
    (∀ name, name ∈ names ↔ name ∈ orphaned_of defs_before defs_orphan) ∧
    length names = size (orphaned_of defs_before defs_orphan).
Proof.
  split; [reflexivity|].
  destruct (check4_orphaned_targets elements_order defs_orphan initial)
    as (_ & Hsupplied & _).
  apply (Hsupplied doc_before defs_before). reflexivity.
Defined.

(** C3, as stated, fails: with the annotation [true] and one annotated
    definition Python's [True != 1] is false, so check 5 records nothing,
    although [true] is not the number 1. *)
Lemma true_annotation_is_accepted :
  collapsed_count defs_one_reduced = 1 ∧
  dict_get doc_true "x-netex-collapsed" (JInt 0) = JBool true ∧
  ¬ mismatch_by_number format_sample doc_true defs_one_reduced initial.
Proof.
  split_and!; [reflexivity..|].
  intros (lines & errs & Heffect & _ & Hiff).
  pose proof (check5_effect format_sample doc_true
                (reduced_of defs_one_reduced) initial) as Hcode.
  destruct (effect_inj _ _ _ _ _ _ _ _ Heffect Hcode) as (_ & -> & _).
  apply Hiff; [|reflexivity].
  intros [Hint|(f & Hfloat & _)]; discriminate.
Qed.

(** C3, amended.  Check 5 compares the annotation (0 when the key is absent)
    with the number of definitions that are objects carrying
    ["x-netex-reduced"], the count of check 2, by Python's [!=]: it records
    one message exactly when the annotation is neither that number (as an int
    or a float) nor the boolean Python equates with it ([True] with 1, [False]
    with 0), and records nothing otherwise. *)
Theorem check5_count_mismatch :
  ∀ (format_value : json → string) (a d : list (string * json)) (st : state),
    dict_wf d →
    let annotation := dict_get a "x-netex-collapsed" (JInt 0) in
    let count := Z.of_nat (collapsed_count d) in
    length (reduced_of d) = collapsed_count d ∧
    ∃ errs,
      effect (check5 format_value (JObj a) (reduced_of d)) st
        [NL +:+ "5. x-netex-collapsed: " +:+ format_value annotation +:+
         " (actual: " +:+ pretty count +:+ ")"]
        errs (Ok tt) ∧
      length errs ≤ 1 ∧
      (errs ≠ [] ↔
       ¬ (is_number annotation count ∨
          ∃ b, annotation = JBool b ∧ Z.b2z b = count)).
Proof.
  intros format_value a d st Hwf annotation count.
  pose proof (length_reduced_of d Hwf) as Hlen. split; [done|].
  pose proof (check5_effect format_value a (reduced_of d) st) as Hcode.
  cbn zeta in Hcode. rewrite Hlen in Hcode. fold annotation count in Hcode.
  eexists. split; [exact Hcode|].
  rewrite <- py_ne_int_false. destruct (py_ne_int annotation count); simpl.
  - split; [lia|]. split; done.
  - split; [lia|]. split; [done|]. intros Hne. by destruct Hne.
Qed.

Lemma check5_count_mismatch_witness :
  dict_wf defs_collapsed ∧
  length (reduced_of defs_collapsed) = collapsed_count defs_collapsed ∧
  ∃ errs,
    effect (check5 format_sample (JObj doc_collapsed) (reduced_of defs_collapsed))
      initial
      [NL +:+ "5. x-netex-collapsed: " +:+
       format_sample (dict_get doc_collapsed "x-netex-collapsed" (JInt 0)) +:+
       " (actual: " +:+ pretty (Z.of_nat (collapsed_count defs_collapsed)) +:+ ")"]
      errs (Ok tt) ∧
    length errs ≤ 1 ∧
    (errs ≠ [] ↔
     ¬ (is_number (dict_get doc_collapsed "x-netex-collapsed" (JInt 0))
          (Z.of_nat (collapsed_count defs_collapsed)) ∨
        ∃ b, dict_get doc_collapsed "x-netex-collapsed" (JInt 0) = JBool b ∧
             Z.b2z b = Z.of_nat (collapsed_count defs_collapsed))).
Proof.
  assert (dict_wf defs_collapsed) as Hwf.
  { unfold dict_wf. by apply (bool_decide_unpack _). }
  split; [exact Hwf|].
  exact (check5_count_mismatch format_sample doc_collapsed defs_collapsed
           initial Hwf).
Defined.

(** C8, as stated, fails: when the after document cannot be parsed the
    exception of [json.load] reaches the top level; nothing is printed, the
    usage message included. *)
Lemma malformed_after_prints_no_usage :
  files [("after.json", Malformed)] "after.json" = Malformed ∧
  ¬ usage_on_fatal (files [("after.json", Malformed)]) format_sample
      elements_order [PROG; "after.json"].
Proof.
  split; [reflexivity|]. intros [Hout _]. vm_compute in Hout. discriminate.
Qed.

(** C8, amended.  Without the after argument the run prints the usage message
    and exits with status 1.  With an after document that cannot be read or
    parsed the run ends by the uncaught exception, with exit status 1 and
    nothing printed, the usage message included.  In both cases no check has
    run and no message was recorded. *)
Theorem fatal_before_checks :
  ∀ (fs : string → file) (format_value : json → string) (ord : set_iteration),
    (∀ argv, length argv < 2 →
       run fs format_value ord argv
       = ({| stdout := [USAGE]; errors := [] |}, Exit 1) ∧
       exit_status (run fs format_value ord argv).2 = 1%Z) ∧
    (∀ prog after_path rest,
       fs after_path = Unreadable ∨ fs after_path = Malformed →
       ∃ x, run fs format_value ord (prog :: after_path :: rest)
            = ({| stdout := []; errors := [] |}, Raise x) ∧
            exit_status (run fs format_value ord (prog :: after_path :: rest)).2
            = 1%Z).
Proof.
  intros fs format_value ord. split.
  - intros argv Hargv. by rewrite (run_usage fs format_value ord argv Hargv).
  - intros prog after_path rest Hfs.
    destruct (run_not_loaded fs format_value ord prog after_path rest Hfs)
      as [x Hrun].
    exists x. by rewrite Hrun.
Qed.

Lemma fatal_before_checks_witness :
  (length [PROG] < 2 ∧
   run (files []) format_sample elements_order [PROG]
   = ({| stdout := [USAGE]; errors := [] |}, Exit 1)) ∧
  (files [] "after.json" = Unreadable ∧
   ∃ x, run (files []) format_sample elements_order [PROG; "after.json"]
        = ({| stdout := []; errors := [] |}, Raise x) ∧
        exit_status (run (files []) format_sample elements_order
                       [PROG; "after.json"]).2 = 1%Z).
Proof.
  destruct (fatal_before_checks (files []) format_sample elements_order)
    as [Husage Hload].
  split.
  - assert (length [PROG] < 2) as Hargv by (simpl; lia).
    split; [exact Hargv|]. apply (Husage [PROG] Hargv).
  - split; [reflexivity|].
    apply (Hload PROG "after.json" []). left. reflexivity.
Defined.

(** C9.  The printed report, the error list and the exit status of a run are a
    function of the command line and of the documents it names, and of nothing
    else: two runs with the same command line, on files that agree at the paths
    of the command line, give the same report and the same exit status,
    whatever the orders in which the two runs iterate over their sets (the one
    thing a Python run does not fix).  The script only reads its inputs. *)
Theorem run_deterministic :
  ∀ (fs1 fs2 : string → file) (format_value : json → string)
    (ord1 ord2 : set_iteration) (argv : list string),
    (∀ path, path ∈ argv → fs1 path = fs2 path) →
    run fs1 format_value ord1 argv = run fs2 format_value ord2 argv ∧
    stdout (run fs1 format_value ord1 argv).1
    = stdout (run fs2 format_value ord2 argv).1 ∧
    exit_status (run fs1 format_value ord1 argv).2
    = exit_status (run fs2 format_value ord2 argv).2.
Proof.
  intros fs1 fs2 format_value ord1 ord2 argv Hfs.
  assert (run fs1 format_value ord1 argv = run fs2 format_value ord2 argv) as Hrun.
  { unfold run. rewrite (main_iteration fs1 format_value ord1 ord2).
    by apply main_files. }
  by rewrite Hrun.
Qed.

Lemma run_deterministic_witness :
  (∀ path, path ∈ [PROG; "after.json"] →
     files [("after.json", Document (JObj doc_broken))] path
     = files [("after.json", Document (JObj doc_broken));
              ("other.json", Document (JObj doc_collapsed))] path) ∧
  run (files [("after.json", Document (JObj doc_broken))]) format_sample
    elements_order [PROG; "after.json"]
  = run (files [("after.json", Document (JObj doc_broken));
                ("other.json", Document (JObj doc_collapsed))]) format_sample
      reverse_order [PROG; "after.json"].
Proof.
  assert (∀ path, path ∈ [PROG; "after.json"] →
            files [("after.json", Document (JObj doc_broken))] path
            = files [("after.json", Document (JObj doc_broken));
                     ("other.json", Document (JObj doc_collapsed))] path) as Hfs.
  { intros path Hpath. apply elem_of_cons in Hpath as [->|Hpath]; [reflexivity|].
    apply elem_of_cons in Hpath as [->|Hpath]; [reflexivity|].
    by apply elem_of_nil in Hpath. }
  split; [exact Hfs|].
  apply (run_deterministic _ _ format_sample elements_order reverse_order _ Hfs).
Defined.

(** C1, as stated, fails: the after document [doc_unjoinable] is loaded, the
    [join] of line 74 raises [TypeError] on the number inside the annotation,
    and the process ends with status 1 although no check has recorded an
    error (and FAIL is not printed). *)
Lemma unjoinable_annotation_exits_1 :
  files [("after.json", Document (JObj doc_unjoinable))] "after.json"
  = Document (JObj doc_unjoinable) ∧
  ¬ exit_by_errors (files [("after.json", Document (JObj doc_unjoinable))])
      format_sample elements_order [PROG; "after.json"].
Proof.
  split; [reflexivity|]. intros [[_ Hempty] _].
  vm_compute in Hempty. specialize (Hempty eq_refl). discriminate.
Qed.

(** C1, amended.  A run raises no exception exactly when its documents are
    loaded and have the expected shape.  On such documents the exit status is
    0 exactly when the error list is empty, a list that is not empty prints
    FAIL and gives status 1, and the error list is the messages of the checks
    1, 3, 4 and 5 in this order, one per problem found.  On any other
    documents an exception reaches the top level: the process ends with
    status 1 whatever the error list holds, and no string it has printed
    opens with FAIL. *)
Theorem exit_status_iff_no_errors :
  ∀ (fs : string → file) (format_value : json → string) (ord : set_iteration)
    (prog after_path : string) (rest : list string),
    let r := run fs format_value ord (prog :: after_path :: rest) in
    ((∀ x, r.2 ≠ Raise x) ↔ ∃ a d bd, shaped fs after_path rest a d bd) ∧
    ((∀ x, r.2 ≠ Raise x) →
     exit_by_errors fs format_value ord (prog :: after_path :: rest) ∧
     ∃ a d bd,
       shaped fs after_path rest a d bd ∧
       errors r.1 = expected_errors format_value ord a d bd ∧
       length (errors r.1) = problem_count a d bd) ∧
    ((¬ ∃ a d bd, shaped fs after_path rest a d bd) → ∃ x, r.2 = Raise x) ∧
    (∀ x, r.2 = Raise x →
     (¬ ∃ a d bd, shaped fs after_path rest a d bd) ∧
     exit_status r.2 = 1%Z ∧
     ∀ line, line ∈ stdout r.1 → ¬ FAIL_line line).
Proof.
  intros fs format_value ord prog after_path rest r.
  pose proof (main_raises_or_shaped fs format_value ord prog after_path rest)
    as Hcases.
  assert ((∃ a d bd, shaped fs after_path rest a d bd) → ∀ x, r.2 ≠ Raise x)
    as Hcompletes.
  { intros (a & d & bd & Hshaped). by eapply shaped_run_completes. }
  assert ((∀ x, r.2 ≠ Raise x) → ∃ a d bd, shaped fs after_path rest a d bd)
    as Hshape.
  { intros Hnone. destruct Hcases as [(lines & errs & x & Hraise)|Hshaped];
      [|exact Hshaped].
    apply run_effect in Hraise. destruct (Hnone x). subst r. by rewrite Hraise. }
  split_and!.
  - split; [exact Hshape|exact Hcompletes].
  - intros Hnone. destruct (Hshape Hnone) as (a & d & bd & Hshaped).
    destruct (main_shaped fs format_value ord prog after_path rest a d bd Hshaped)
      as [lines Hrun].
    unfold exit_by_errors. subst r. rewrite Hrun. cbn [fst snd errors stdout].
    split.
    + destruct (expected_errors format_value ord a d bd) as [|err errs] eqn:Herrs;
        cbn [summary_result summary_lines exit_status].
      * split; [done|]. by intros [].
      * split; [split; done|]. intros _. split; [|done].
        apply elem_of_app. right. apply elem_of_app. left.
        apply elem_of_cons. right. apply elem_of_cons. by left.
    + exists a, d, bd. split_and!; [done..|]. apply length_expected_errors.
  - intros Hnot. destruct Hcases as [(lines & errs & x & Hraise)|Hshaped];
      [|by destruct Hnot].
    apply run_effect in Hraise. exists x. subst r. by rewrite Hraise.
  - intros x Hraise. split_and!.
    + intros Hshaped. by destruct (Hcompletes Hshaped x).
    + by rewrite Hraise.
    + by eapply run_raised_prints_no_FAIL.
Qed.

Lemma exit_status_iff_no_errors_witness :
  ((∀ x, (run sample_files format_sample elements_order
            [PROG; "broken.json"]).2 ≠ Raise x) ∧
   exit_by_errors sample_files format_sample elements_order
     [PROG; "broken.json"] ∧
   errors (run sample_files format_sample elements_order
             [PROG; "broken.json"]).1 = ["Broken $ref: Missing"]) ∧
  ((run sample_files format_sample elements_order
      [PROG; "unjoinable.json"]).2 = Raise TypeError ∧
   errors (run sample_files format_sample elements_order
             [PROG; "unjoinable.json"]).1 = [] ∧
   exit_status (run sample_files format_sample elements_order
                  [PROG; "unjoinable.json"]).2 = 1%Z ∧
   ∀ line, line ∈ stdout (run sample_files format_sample elements_order
                            [PROG; "unjoinable.json"]).1 → ¬ FAIL_line line) ∧
  ((run sample_files format_sample elements_order
      [PROG; "collapsed.json"; "list.json"]).2 = Raise AttributeError ∧
   errors (run sample_files format_sample elements_order
             [PROG; "collapsed.json"; "list.json"]).1
   = ["Def count increased by 1"] ∧
   exit_status (run sample_files format_sample elements_order
                  [PROG; "collapsed.json"; "list.json"]).2 = 1%Z ∧
   ∀ line, line ∈ stdout (run sample_files format_sample elements_order
                            [PROG; "collapsed.json"; "list.json"]).1 →
           ¬ FAIL_line line).
Proof.
  assert (∀ x, (run sample_files format_sample elements_order
                  [PROG; "broken.json"]).2 ≠ Raise x)
    as Hcompletes by (intros x; vm_compute; discriminate).
  assert ((run sample_files format_sample elements_order
             [PROG; "unjoinable.json"]).2 = Raise TypeError)
    as Hunjoinable by (vm_compute; reflexivity).
  assert ((run sample_files format_sample elements_order
             [PROG; "collapsed.json"; "list.json"]).2 = Raise AttributeError)
    as Hlist by (vm_compute; reflexivity).
  pose proof (exit_status_iff_no_errors sample_files format_sample elements_order
                PROG "broken.json" []) as Hbroken.
  pose proof (exit_status_iff_no_errors sample_files format_sample elements_order
                PROG "unjoinable.json" []) as Hraised.
  pose proof (exit_status_iff_no_errors sample_files format_sample elements_order
                PROG "collapsed.json" ["list.json"]) as Hraised'.
  cbv zeta in Hbroken, Hraised, Hraised'.
  destruct Hbroken as (_ & Hbroken & _).
  destruct Hraised as (_ & _ & _ & Hraised).
  destruct Hraised' as (_ & _ & _ & Hraised').
  split_and!.
  - exact Hcompletes.
  - apply Hbroken, Hcompletes.
  - vm_compute. reflexivity.
  - exact Hunjoinable.
  - vm_compute. reflexivity.
  - apply (Hraised TypeError), Hunjoinable.
  - apply (Hraised TypeError), Hunjoinable.
  - exact Hlist.
  - vm_compute. reflexivity.
  - apply (Hraised' AttributeError), Hlist.
  - apply (Hraised' AttributeError), Hlist.
Defined.

(** C10.  References are collected from the values of the definitions mapping
    only.  For a name that no definition entry refers to, whatever the rest of
    the after document holds (a ["$ref"] to the name at the top level or under
    another key) and whether or not the name is a definition: the name is not
    in the set of targets of check 3, and no run records it as a broken
    reference or as an orphaned target. *)
Theorem reference_outside_definitions :
  ∀ (fs : string → file) (format_value : json → string) (ord : set_iteration)
    (prog after_path : string) (rest : list string)
    (a : list (string * json)) (name : string),
    fs after_path = Document (JObj a) →
    (∀ d entry, dict_get a "definitions" (JObj []) = JObj d →
                entry ∈ d → ¬ references entry.2 name) →
    let r := run fs format_value ord (prog :: after_path :: rest) in
    (∀ st st' all_refs,
       check3 ord (dict_get a "definitions" (JObj [])) st = (st', Ok all_refs) →
       name ∉ all_refs) ∧
    (("Broken $ref: " +:+ name) ∉ errors r.1) ∧
    (("Orphaned target: " +:+ name) ∉ errors r.1).
Proof.
  intros fs format_value ord prog after_path rest a name Hafter Hnone r.
  assert (∀ d, dict_get a "definitions" (JObj []) = JObj d → name ∉ targets_of d)
    as Htargets.
  { intros d Hd (entry & Hentry & Href)%elem_of_targets_of. by eapply Hnone. }
  split.
  { intros st st' all_refs Hcheck.
    destruct (dict_get a "definitions" (JObj [])) as [| | | | | |d] eqn:Hd;
      try discriminate Hcheck.
    rewrite (check3_effect ord d st) in Hcheck. injection Hcheck as _ <-.
    by apply Htargets. }
  set (Q := λ msg : string,
         msg ≠ "Broken $ref: " +:+ name ∧ msg ≠ "Orphaned target: " +:+ name).
  assert (Forall Q (errors r.1)) as Herrors.
  { apply triple_run, triple_main.
    - intros n. split; discriminate.
    - intros text. split; discriminate.
    - intros prog' after_path' rest' a' d ref [= _ <- _] Ha' Hd Href.
      rewrite Hafter in Ha'. injection Ha' as <-.
      split; [|discriminate]. intros Heq.
      apply (inj (String.append "Broken $ref: ")) in Heq as ->.
      apply (Htargets d Hd). unfold broken_of in Href.
      by apply elem_of_difference in Href as [? _].
    - intros prog' after_path' rest' a' d bd orphan [= _ <- _] Ha' Hd Horphan.
      rewrite Hafter in Ha'. injection Ha' as <-.
      split; [discriminate|]. intros Heq.
      apply (inj (String.append "Orphaned target: ")) in Heq as ->.
      apply (Htargets d Hd). unfold orphaned_of in Horphan.
      by apply elem_of_intersection in Horphan as [_ ?]. }
  rewrite Forall_forall in Herrors.
  split; intros Hin; apply Herrors in Hin as [? ?]; done.
Qed.

Lemma reference_outside_definitions_witness :
  references (JObj doc_outside) "Missing" ∧
  ("Missing" ∉ names_of [("A", JObj [])]) ∧
  ("Broken $ref: Missing"
     ∉ errors (run (files [("after.json", Document (JObj doc_outside))])
                 format_sample elements_order [PROG; "after.json"]).1).
Proof.
  split; [constructor; by left|].
  split.
  { unfold names_of. rewrite elem_of_list_to_set. simpl. intros Hin.
    apply elem_of_cons in Hin as [Heq|Hin]; [discriminate|].
    by apply elem_of_nil in Hin. }
  apply (reference_outside_definitions
           (files [("after.json", Document (JObj doc_outside))])
           format_sample elements_order PROG "after.json" [] doc_outside "Missing").
  - reflexivity.
  - intros d entry [= <-] Hentry Href.
    apply list_elem_of_singleton in Hentry as ->.
    apply entry_in_mentions in Href. discriminate Href.
Defined.

(** ** Further properties of the driver *)

Lemma main_report fs format_value ord prog after_path rest a d bd :
  shaped fs after_path rest a d bd →
  run fs format_value ord (prog :: after_path :: rest) =
  ({| stdout := expected_report format_value ord after_path a d bd;
      errors := expected_errors format_value ord a d bd |},
   summary_result (expected_errors format_value ord a d bd)).
Proof.
  intros [Hafter Hdefs Hbefore Hjoin].
  assert (load fs after_path = Ok (JObj a)) as Hload
    by (unfold load; by rewrite Hafter).
  assert (py_get (JObj a) "definitions" (JObj []) = Ok (JObj d)) as Hget
    by (simpl; by rewrite Hdefs).
  assert (∃ before,
    (∀ st, effect (check1 fs (head rest) (Z.of_nat (length d))) st
             (check1_lines bd d) (check1_errors bd d) (Ok before)) ∧
    (∀ st, effect (check4 ord before (JObj d) (targets_of d)) st
             (check4_lines ord bd d) (check4_errors ord bd d) (Ok tt)))
    as (before & H1 & H4).
  { destruct bd as [bd|].
    - apply before_definitions_Some in Hbefore as (path & b & -> & Hpath & Hfs & Hbd).
      eexists. split; intros st.
      + eapply (check1_supplied fs path (JObj b) (JObj bd)); [done..| |done].
        simpl. by rewrite Hbd.
      + by apply check4_effect.
    - apply before_definitions_None in Hbefore.
      eexists. split; intros st; [by apply check1_not_supplied|].
      apply check4_skipped. }
  apply run_effect. unfold main. eapply effect_eq_result.
  - eapply (effect_bind_lift _ _ _ _ _ _ _ Hload).
    eapply (effect_bind_lift _ _ _ _ _ _ _ Hget).
    eapply (effect_bind_lift _ (Z.of_nat (length d))); [done|].
    eapply effect_bind; [apply effect_print|].
    eapply effect_bind; [apply H1|].
    eapply effect_bind; [by apply check2_effect|].
    eapply effect_bind; [apply check3_effect|].
    eapply effect_bind; [apply H4|].
    eapply effect_bind; [apply check5_effect|].
    apply summary_effect.
  - unfold expected_report, HEADER, check2_lines, check3_lines, check5_lines.
    do 6 f_equal.
    cbn [errors stdout initial app]. rewrite !app_nil_r, <- !app_assoc.
    reflexivity.
  - cbn [app]. rewrite !app_nil_r. reflexivity.
  - f_equal. cbn [errors stdout initial app]. rewrite !app_nil_r, <- !app_assoc.
    reflexivity.
Qed.

Lemma orphaned_subset_broken bd d : orphaned_of bd d ⊆ broken_of d.
Proof.
  unfold orphaned_of, broken_of. intros name.
  rewrite elem_of_intersection, !elem_of_difference. tauto.
Qed.

Lemma sorted_nil ord s : sorted ord s = [] ↔ s = ∅.
Proof.
  split.
  - intros Hnil. apply set_eq. intros name.
    rewrite <- (elem_of_sorted ord), Hnil, elem_of_empty. apply elem_of_nil.
  - intros ->. apply sorted_empty.
Qed.

Lemma check3_errors_nil ord d : check3_errors ord d = [] ↔ broken_of d = ∅.
Proof.
  unfold check3_errors. rewrite <- sorted_nil. split.
  - apply fmap_nil_inv.
  - by intros ->.
Qed.

Lemma check4_errors_nil ord bd d :
  broken_of d = ∅ → check4_errors ord bd d = [].
Proof.
  intros Hbroken. destruct bd as [bd|]; [|done]. simpl.
  assert (orphaned_of bd d = ∅) as ->; [|by rewrite sorted_empty].
  pose proof (orphaned_subset_broken bd d) as Hsub. rewrite Hbroken in Hsub.
  apply set_eq. intros name. rewrite elem_of_empty. split; [|done].
  intros Hin. by apply Hsub, elem_of_empty in Hin.
Qed.

Lemma broken_of_empty d : broken_of d = ∅ ↔ targets_of d ⊆ names_of d.
Proof.
  unfold broken_of. split.
  - intros Hempty name Hname. destruct (decide (name ∈ names_of d)); [done|].
    assert (name ∈ targets_of d ∖ names_of d) as Hin by by apply elem_of_difference.
    rewrite Hempty in Hin. by apply elem_of_empty in Hin.
  - intros Hsub. apply set_eq. intros name.
    rewrite elem_of_difference, elem_of_empty. split; [|done].
    intros [Hin Hout]. by apply Hout, Hsub.
Qed.

Lemma expected_errors_nil format_value ord a d bd :
  expected_errors format_value ord a d bd = [] ↔
  check1_errors bd d = [] ∧ broken_of d = ∅ ∧ check5_errors format_value a d = [].
Proof.
  unfold expected_errors. split.
  - intros (H1 & (H3 & (H4 & H5)%app_eq_nil)%app_eq_nil)%app_eq_nil.
    by apply check3_errors_nil in H3.
  - intros (-> & Hbroken & ->).
    rewrite (check4_errors_nil ord bd d Hbroken).
    by rewrite (proj2 (check3_errors_nil ord d) Hbroken).
Qed.

Lemma exit_status_summary_result errs :
  exit_status (summary_result errs) = 0%Z ↔ errs = [].
Proof. by destruct errs. Qed.

Lemma elem_of_check3_errors ord d msg :
  msg ∈ check3_errors ord d ↔ ∃ name, msg = "Broken $ref: " +:+ name ∧ name ∈ broken_of d.
Proof.
  unfold check3_errors. rewrite list_elem_of_fmap.
  split; intros (name & -> & Hname); exists name; by rewrite elem_of_sorted in *.
Qed.

Lemma elem_of_check4_errors ord bd d msg :
  msg ∈ check4_errors ord bd d ↔
  ∃ x name, bd = Some x ∧ msg = "Orphaned target: " +:+ name ∧ name ∈ orphaned_of x d.
Proof.
  destruct bd as [x|]; simpl.
  - rewrite list_elem_of_fmap. split.
    + intros (name & -> & Hname%elem_of_sorted). eauto.
    + intros (? & name & [= <-] & -> & Hname). exists name.
      by rewrite elem_of_sorted.
  - split; [by intros ?%elem_of_nil|]. by intros (? & ? & ? & _).
Qed.

(** The whole report of a run on documents of the expected shape: the title,
    the sections of the five checks in their order, each with its count and
    its names in sorted order, and the summary; the error list holds the
    messages of the checks 1, 3, 4 and 5; the run ends by [sys.exit(1)] when
    the list is not empty and returns otherwise. *)
Theorem run_report :
  ∀ (fs : string → file) (format_value : json → string) (ord : set_iteration)
    (prog after_path : string) (rest : list string)
    (a d : list (string * json)) (bd : option (list (string * json))),
    shaped fs after_path rest a d bd →
    run fs format_value ord (prog :: after_path :: rest) =
    ({| stdout :=
          [HEADER after_path] ++ check1_lines bd d ++ check2_lines d ++
          check3_lines ord d ++ check4_lines ord bd d ++
          check5_lines format_value a d ++
          summary_lines (expected_errors format_value ord a d bd);
        errors :=
          check1_errors bd d ++ check3_errors ord d ++ check4_errors ord bd d ++
          check5_errors format_value a d |},
     summary_result (expected_errors format_value ord a d bd)).
Proof. intros. by apply main_report. Qed.

Lemma run_report_witness :
  shaped (files [("after.json", Document (JObj doc_orphan));
                 ("before.json", Document (JObj doc_before))])
    "after.json" ["before.json"] doc_orphan defs_orphan (Some defs_before) ∧
  run (files [("after.json", Document (JObj doc_orphan));
              ("before.json", Document (JObj doc_before))])
    format_sample elements_order [PROG; "after.json"; "before.json"]
  = ({| stdout :=
          ["=== Collapse verification: after.json ===" +:+ NL;
           "1. Def count: 2 -> 1 (1 removed)";
           NL +:+ "2. Collapsed defs (1):";
           "   A <- B";
           NL +:+ "3. Broken $refs: 1";
           "   BROKEN: B";
           NL +:+ "4. Orphaned targets: 1";
           "   ORPHANED: B";
           NL +:+ "5. x-netex-collapsed: 1 (actual: 1)";
           SEPARATOR;
           "FAIL: 2 error(s)";
           "  - Broken $ref: B";
           "  - Orphaned target: B"];
        errors := ["Broken $ref: B"; "Orphaned target: B"] |}, Exit 1).
Proof.
  assert (shaped (files [("after.json", Document (JObj doc_orphan));
                         ("before.json", Document (JObj doc_before))])
            "after.json" ["before.json"] doc_orphan defs_orphan (Some defs_before))
    as Hshaped by (split; reflexivity).
  split; [exact Hshaped|].
  rewrite (run_report _ format_sample elements_order PROG _ _ _ _ _ Hshaped).
  vm_compute. reflexivity.
Defined.

(** The verdict of a run on documents of the expected shape.  The exit status
    is 0 exactly when the after document has no more definitions than the
    before document (when one is supplied), every reference target is the name
    of a definition, and the annotation equals the count of check 2.  Check 4
    has no part in the verdict: an orphan is a broken reference already. *)
Theorem pass_criterion :
  ∀ (fs : string → file) (format_value : json → string) (ord : set_iteration)
    (prog after_path : string) (rest : list string)
    (a d : list (string * json)) (bd : option (list (string * json))),
    shaped fs after_path rest a d bd →
    (exit_status (run fs format_value ord (prog :: after_path :: rest)).2 = 0%Z ↔
     (∀ x, bd = Some x → length d ≤ length x) ∧
     targets_of d ⊆ names_of d ∧
     py_ne_int (dict_get a "x-netex-collapsed" (JInt 0))
       (Z.of_nat (length (reduced_of d))) = false) ∧
    (∀ x, bd = Some x → orphaned_of x d ⊆ broken_of d).
Proof.
  intros fs format_value ord prog after_path rest a d bd Hshaped. split.
  - rewrite (main_report _ format_value ord prog _ _ _ _ _ Hshaped). cbn [snd].
    rewrite exit_status_summary_result, expected_errors_nil, broken_of_empty.
    assert (check1_errors bd d = [] ↔ ∀ x, bd = Some x → length d ≤ length x) as ->.
    { unfold check1_errors. destruct bd as [x|].
      - destruct (_ <? 0)%Z eqn:Hneg.
        + apply Z.ltb_lt in Hneg. split; [done|]. intros Hle.
          specialize (Hle x eq_refl). lia.
        + apply Z.ltb_ge in Hneg. split; [|done]. intros _ ? [= <-]. lia.
      - split; [|done]. by intros _ ? [=]. }
    assert (check5_errors format_value a d = [] ↔
            py_ne_int (dict_get a "x-netex-collapsed" (JInt 0))
              (Z.of_nat (length (reduced_of d))) = false) as ->.
    { unfold check5_errors. by destruct (py_ne_int _ _). }
    done.
  - intros x _. apply orphaned_subset_broken.
Qed.

Lemma pass_criterion_witness :
  shaped (files [("after.json", Document (JObj doc_collapsed))])
    "after.json" [] doc_collapsed defs_collapsed None ∧
  exit_status (run (files [("after.json", Document (JObj doc_collapsed))])
                 format_sample elements_order [PROG; "after.json"]).2 = 0%Z.
Proof.
  assert (shaped (files [("after.json", Document (JObj doc_collapsed))])
            "after.json" [] doc_collapsed defs_collapsed None)
    as Hshaped by (split; reflexivity).
  split; [exact Hshaped|].
  apply (pass_criterion _ format_sample elements_order PROG _ _ _ _ _ Hshaped).
  split_and!.
  - intros x [=].
  - intros name Hname. vm_compute in Hname. discriminate Hname.
  - reflexivity.
Defined.

(** In a run that raises no exception, every name recorded as an orphaned
    target is also recorded as a broken reference: a removed name that is still
    a target is counted twice. *)
Theorem orphaned_implies_broken :
  ∀ (fs : string → file) (format_value : json → string) (ord : set_iteration)
    (prog after_path : string) (rest : list string) (name : string),
    let r := run fs format_value ord (prog :: after_path :: rest) in
    (∀ x, r.2 ≠ Raise x) →
    ("Orphaned target: " +:+ name) ∈ errors r.1 →
    ("Broken $ref: " +:+ name) ∈ errors r.1.
Proof.
  intros fs format_value ord prog after_path rest name r Hcompletes.
  destruct (main_raises_or_shaped fs format_value ord prog after_path rest)
    as [(lines & errs & x & Hraise)|(a & d & bd & Hshaped)].
  { apply run_effect in Hraise. destruct (Hcompletes x).
    subst r. by rewrite Hraise. }
  subst r. rewrite (main_report _ format_value ord prog _ _ _ _ _ Hshaped).
  cbn [fst errors]. unfold expected_errors. rewrite !elem_of_app.
  intros [H1|[H3|[H4|H5]]].
  - unfold check1_errors in H1. destruct bd; [|by apply elem_of_nil in H1].
    destruct (_ <? 0)%Z; [|by apply elem_of_nil in H1].
    apply list_elem_of_singleton in H1. discriminate H1.
  - apply elem_of_check3_errors in H3 as (? & [=] & _).
  - apply elem_of_check4_errors in H4 as (x & orphan & -> & Heq & Horphan).
    apply (inj (String.append "Orphaned target: ")) in Heq as <-.
    right; left. apply elem_of_check3_errors. exists name. split; [done|].
    by apply orphaned_subset_broken in Horphan.
  - unfold check5_errors in H5. destruct (py_ne_int _ _); [|by apply elem_of_nil in H5].
    apply list_elem_of_singleton in H5. discriminate H5.
Qed.

Lemma orphaned_implies_broken_witness :
  ("Orphaned target: B")
    ∈ errors (run (files [("after.json", Document (JObj doc_orphan));
                          ("before.json", Document (JObj doc_before))])
                format_sample elements_order
                [PROG; "after.json"; "before.json"]).1 ∧
  ("Broken $ref: B")
    ∈ errors (run (files [("after.json", Document (JObj doc_orphan));
                          ("before.json", Document (JObj doc_before))])
                format_sample elements_order
                [PROG; "after.json"; "before.json"]).1.
Proof.
  assert (("Orphaned target: B")
            ∈ errors (run (files [("after.json", Document (JObj doc_orphan));
                                  ("before.json", Document (JObj doc_before))])
                        format_sample elements_order
                        [PROG; "after.json"; "before.json"]).1) as Horphan.
  { vm_compute. right. left. }
  split; [exact Horphan|].
  apply (orphaned_implies_broken _ format_sample elements_order PROG
           "after.json" ["before.json"] "B"); [|exact Horphan].
  intros x. vm_compute. discriminate.
Defined.

(** The exit status of every run is 0 or 1, and it is 0 only when no message
    was recorded and the last line printed is the PASS line. *)
Theorem exit_status_0_or_1 :
  ∀ (fs : string → file) (format_value : json → string) (ord : set_iteration)
    (argv : list string),
    let r := run fs format_value ord argv in
    (exit_status r.2 = 0%Z ∨ exit_status r.2 = 1%Z) ∧
    (exit_status r.2 = 0%Z →
     errors r.1 = [] ∧ last (stdout r.1) = Some "PASS: all checks passed").
Proof.
  intros fs format_value ord argv r.
  destruct (decide (length argv < 2)) as [Hshort|Hlong].
  { subst r. rewrite (run_usage fs format_value ord argv Hshort). simpl.
    split; [by right|done]. }
  destruct argv as [|prog [|after_path rest]]; [simpl in Hlong; lia..|].
  destruct (main_raises_or_shaped fs format_value ord prog after_path rest)
    as [(lines & errs & x & Hraise)|(a & d & bd & Hshaped)].
  { apply run_effect in Hraise. subst r. rewrite Hraise. simpl.
    split; [by right|done]. }
  subst r. rewrite (main_report _ format_value ord prog _ _ _ _ _ Hshaped).
  cbn [fst snd errors stdout].
  destruct (expected_errors format_value ord a d bd) as [|err errs] eqn:Herrs.
  - split; [by left|]. intros _. split; [done|].
    unfold expected_report. rewrite Herrs, !app_assoc. unfold summary_lines.
    by rewrite last_app.
  - split; [by right|]. done.
Qed.

(** ** Further properties of check 2 *)

Lemma all_strings_Some items parts :
  all_strings items = Some parts ↔ items = JStr <$> parts.
Proof.
  revert parts. induction items as [|item items IH]; intros parts; simpl.
  - split; [intros [= <-]; done|]. by destruct parts.
  - destruct item as [| | | |s| |];
      try (split; [done|]; by destruct parts).
    destruct (all_strings items) as [rest|] eqn:Hrest; simpl.
    + split.
      * intros [= <-]. simpl. f_equal. by apply IH.
      * destruct parts as [|part parts]; [done|]. simpl. intros [= -> Hitems].
        apply IH in Hitems as [= ->]. done.
    + split; [done|]. destruct parts as [|part parts]; [done|]. simpl.
      intros [= -> Hitems]. by apply IH in Hitems.
Qed.

Lemma joinable_shape targets :
  joinable targets = true ↔
  (∃ s, targets = JStr s) ∨ (∃ fields, targets = JObj fields) ∨
  (∃ parts, targets = JArr (JStr <$> parts)).
Proof.
  unfold joinable. destruct targets as [| | | |s|items|fields]; simpl;
    try (split; [done|]; intros [[? ?]|[[? ?]|[? ?]]]; done).
  - split; eauto.
  - destruct (all_strings items) as [parts|] eqn:Hparts.
    + split; [|done]. intros _. right; right. exists parts.
      f_equal. by apply all_strings_Some.
    + split; [done|]. intros [[? ?]|[[? ?]|[parts [= Hitems]]]]; try done.
      apply all_strings_Some in Hitems. congruence.
  - split; eauto.
Qed.

Lemma not_joinable_TypeError targets :
  joinable targets = false → py_join ", " targets = Raise TypeError.
Proof.
  unfold joinable. destruct targets as [| | | | |items|]; simpl; try done.
  by destruct (all_strings items).
Qed.

Lemma joinable_prefix_joinable (l : list (string * json)) entry :
  entry ∈ joinable_prefix l → joinable entry.2 = true.
Proof.
  induction l as [|e l IH]; simpl; [by intros ?%elem_of_nil|].
  destruct (joinable e.2) eqn:He; [|by intros ?%elem_of_nil].
  intros [->|Hin]%elem_of_cons; auto.
Qed.

Lemma joinable_prefix_split (l : list (string * json)) :
  forallb (λ entry, joinable entry.2) l = false →
  ∃ entry after,
    l = joinable_prefix l ++ entry :: after ∧ joinable entry.2 = false.
Proof.
  induction l as [|e l IH]; [done|]. cbn [forallb joinable_prefix].
  destruct (joinable e.2) eqn:He; cbn [andb].
  - intros (entry & after & Hl & Hbad)%IH. exists entry, after.
    split; [|done]. cbn [app]. f_equal. exact Hl.
  - intros _. by exists e, l.
Qed.

(** The loop of lines 73-74 prints the lines of the entries that come before
    the first annotation that cannot be joined, and raises there. *)
Lemma effect_collapsed_lines_TypeError (l : list (string * json)) st :
  forallb (λ entry, joinable entry.2) l = false →
  effect (for_each l (λ entry,
            text ← lift (py_join ", " entry.2);
            print ("   " +:+ entry.1 +:+ " <- " +:+ text))) st
    ((λ entry, "   " +:+ entry.1 +:+ " <- " +:+ joined entry.2)
       <$> joinable_prefix l)
    [] (Raise TypeError).
Proof.
  revert st. induction l as [|entry l IH]; intros st; [done|].
  cbn [forallb for_each joinable_prefix].
  destruct (joinable entry.2) eqn:Hentry; cbn [andb].
  - intros Hrest. unfold joinable, joined in *.
    destruct (py_join ", " entry.2) as [text| |] eqn:Htext; try done.
    eapply effect_eq.
    + eapply effect_bind; [|apply IH, Hrest].
      apply (effect_bind_lift _ text); [done|]. apply effect_print.
    + rewrite fmap_cons. cbn beta. by rewrite Htext.
    + done.
  - intros _. apply not_joinable_TypeError in Hentry.
    apply effect_bind_Raise. by apply effect_bind_lift_Raise.
Qed.

(** Check 2 never touches the error list: whatever the value of the
    definitions and however the check ends (by returning, or by an exception
    of [items()] or of [join]), the list is as it was.  The check never ends
    the process by itself. *)
Theorem check2_records_nothing :
  ∀ (after_defs : json) (st : state),
    errors (check2 after_defs st).1 = errors st ∧
    (∀ code, (check2 after_defs st).2 ≠ Exit code) ∧
    ((∀ d, after_defs ≠ JObj d) →
     check2 after_defs st = (st, Raise AttributeError)).
Proof.
  intros after_defs st.
  assert ((∀ d, after_defs ≠ JObj d) →
          check2 after_defs st = (st, Raise AttributeError)) as Hnot.
  { intros Hdefs. rewrite (check2_not_dict after_defs st Hdefs).
    destruct st. by rewrite !app_nil_r. }
  assert ((∃ d, after_defs = JObj d) ∨ (∀ d, after_defs ≠ JObj d))
    as [[d ->]|Hdefs] by (destruct after_defs; eauto).
  - destruct (forallb (λ entry, joinable entry.2) (reduced_of d)) eqn:Hjoin.
    + pose proof (check2_effect d st Hjoin) as Hcheck. unfold effect in Hcheck.
      split_and!.
      * rewrite Hcheck. simpl. by rewrite app_nil_r.
      * intros code. by rewrite Hcheck.
      * intros Hd. by destruct (Hd d).
    + destruct (check2_not_joinable d st Hjoin) as (lines & x & Hcheck).
      unfold effect in Hcheck. split_and!.
      * rewrite Hcheck. simpl. by rewrite app_nil_r.
      * intros code. by rewrite Hcheck.
      * intros Hd. by destruct (Hd d).
  - split_and!; [by rewrite (Hnot Hdefs)|intros code; by rewrite (Hnot Hdefs)|done].
Qed.

Lemma check2_records_nothing_witness :
  (∀ d, JArr [JStr "A"] ≠ JObj d) ∧
  check2 (JArr [JStr "A"]) initial = (initial, Raise AttributeError).
Proof.
  assert (∀ d, JArr [JStr "A"] ≠ JObj d) as Hdefs by discriminate.
  split; [exact Hdefs|].
  apply (check2_records_nothing (JArr [JStr "A"]) initial), Hdefs.
Defined.

(** Check 2 on a definitions mapping returns exactly when every annotation can
    be joined, that is when each is a string, a mapping, or a list of
    strings.  Otherwise the [join] of line 74 raises [TypeError] at the first
    entry, in sorted order, whose annotation cannot be joined: the count line
    and the lines of the entries sorted before that entry have been printed,
    and nothing else. *)
Theorem check2_joins_or_raises :
  ∀ (d : list (string * json)) (st : state),
    (∀ targets,
       joinable targets = true ↔
       (∃ s, targets = JStr s) ∨ (∃ fields, targets = JObj fields) ∨
       (∃ parts, targets = JArr (JStr <$> parts))) ∧
    ((∀ entry, entry ∈ reduced_of d → joinable entry.2 = true) →
     effect (check2 (JObj d)) st
       ((NL +:+ "2. Collapsed defs (" +:+ pretty (length (reduced_of d)) +:+ "):")
        :: ((λ entry, "   " +:+ entry.1 +:+ " <- " +:+ joined entry.2)
              <$> sorted_items (reduced_of d)))
       [] (Ok (reduced_of d))) ∧
    ((∃ entry, entry ∈ reduced_of d ∧ joinable entry.2 = false) →
     ∃ before entry after,
       sorted_items (reduced_of d) = before ++ entry :: after ∧
       (∀ e, e ∈ before → joinable e.2 = true) ∧
       joinable entry.2 = false ∧
       before = joinable_prefix (sorted_items (reduced_of d)) ∧
       effect (check2 (JObj d)) st
         ((NL +:+ "2. Collapsed defs (" +:+ pretty (length (reduced_of d)) +:+ "):")
          :: ((λ e, "   " +:+ e.1 +:+ " <- " +:+ joined e.2) <$> before))
         [] (Raise TypeError)).
Proof.
  intros d st. split_and!.
  - apply joinable_shape.
  - intros Hall. apply check2_effect. apply forallb_forall.
    intros entry Hentry. by apply Hall, list_elem_of_In.
  - intros (entry & Hentry & Hbad).
    assert (forallb (λ entry, joinable entry.2) (sorted_items (reduced_of d)) = false)
      as Hjoin.
    { rewrite forallb_sorted_items. apply not_true_is_false. intros Hall.
      rewrite forallb_forall in Hall.
      apply list_elem_of_In, Hall in Hentry. congruence. }
    destruct (joinable_prefix_split _ Hjoin) as (first & after & Hsplit & Hfirst).
    exists (joinable_prefix (sorted_items (reduced_of d))), first, after.
    split_and!; [exact Hsplit| |exact Hfirst|reflexivity|].
    + intros e. apply joinable_prefix_joinable.
    + unfold check2. eapply effect_eq.
      * eapply (effect_bind_lift _ d); [done|].
        eapply effect_bind; [apply effect_print|].
        apply effect_bind_Raise, effect_collapsed_lines_TypeError, Hjoin.
      * done.
      * done.
Qed.

Lemma check2_joins_or_raises_witness :
  (∃ entry, entry ∈ reduced_of defs_third_unjoinable ∧ joinable entry.2 = false) ∧
  sorted_items (reduced_of defs_third_unjoinable)
  = [("A", JArr [JStr "y"; JStr "w"]); ("B", JArr [JStr "x"]);
     ("C", JArr [JInt 1]); ("D", JArr [JStr "z"])] ∧
  effect (check2 (JObj defs_third_unjoinable)) initial
    [NL +:+ "2. Collapsed defs (4):"; "   A <- y, w"; "   B <- x"]
    [] (Raise TypeError).
Proof.
  assert (∃ entry, entry ∈ reduced_of defs_third_unjoinable ∧
                   joinable entry.2 = false) as Hbad.
  { exists ("C", JArr [JInt 1]). split; [|reflexivity].
    vm_compute. apply elem_of_cons. right. apply elem_of_cons. right.
    apply elem_of_cons. by left. }
  split; [exact Hbad|]. split; [vm_compute; reflexivity|].
  destruct (proj2 (proj2 (check2_joins_or_raises defs_third_unjoinable initial))
              Hbad) as (before & entry & after & _ & _ & _ & -> & Hraise).
  exact Hraise.
Defined.

Lemma omap_reduced_entry_sublist d :
  (omap reduced_entry d).*1 `sublist_of` d.*1.
Proof.
  induction d as [|entry d IH]; simpl; [done|].
  destruct (reduced_entry entry) as [r|] eqn:Hr; simpl.
  - rewrite (reduced_entry_name _ _ Hr). by apply sublist_skip.
  - by apply sublist_cons.
Qed.

Lemma reduced_entry_Some entry name targets :
  reduced_entry entry = Some (name, targets) ↔
  ∃ fields, entry = (name, JObj fields) ∧
            dict_lookup fields "x-netex-reduced" = Some targets.
Proof.
  unfold reduced_entry. destruct entry as [k v]. simpl. split.
  - destruct v as [| | | | | |fields]; try done.
    destruct (dict_lookup fields "x-netex-reduced") as [t|] eqn:Ht; [|done].
    simpl. intros [= -> ->]. eauto.
  - intros (fields & [= -> ->] & ->). done.
Qed.

(** The dict [reduced_defs] built by the loop of lines 67-70 from a
    definitions mapping: its entries are exactly the pairs of a name and an
    annotation such that the definition of that name is an object with the
    key ["x-netex-reduced"] and that value; they come in the order of the
    definitions, and their names are distinct.  A definition that is not an
    object, or has no such key, leaves no entry. *)
Theorem reduced_defs_entries :
  ∀ (d : list (string * json)),
    dict_wf d →
    (∀ name targets,
       (name, targets) ∈ reduced_of d ↔
       ∃ fields, (name, JObj fields) ∈ d ∧
                 dict_lookup fields "x-netex-reduced" = Some targets) ∧
    (reduced_of d).*1 `sublist_of` d.*1 ∧
    dict_wf (reduced_of d).
Proof.
  intros d Hwf. rewrite (reduced_of_wf d Hwf). split_and!.
  - intros name targets. rewrite list_elem_of_omap. split.
    + intros (entry & Hentry & (fields & -> & Hfields)%reduced_entry_Some). eauto.
    + intros (fields & Hentry & Hfields). exists (name, JObj fields).
      split; [done|]. apply reduced_entry_Some. eauto.
  - apply omap_reduced_entry_sublist.
  - unfold dict_wf in *.
    exact (sublist_NoDup _ _ Hwf (omap_reduced_entry_sublist d)).
Qed.

Lemma reduced_defs_entries_witness :
  dict_wf defs_collapsed ∧
  (∀ name targets,
     (name, targets) ∈ reduced_of defs_collapsed ↔
     ∃ fields, (name, JObj fields) ∈ defs_collapsed ∧
               dict_lookup fields "x-netex-reduced" = Some targets).
Proof.
  assert (dict_wf defs_collapsed) as Hwf.
  { unfold dict_wf. by apply (bool_decide_unpack _). }
  split; [exact Hwf|]. apply (reduced_defs_entries defs_collapsed Hwf).
Defined.

(** ** The order of the reports *)

Lemma StronglySorted_strict {A} (R : relation A) (l : list A) :
  StronglySorted R l → NoDup l → StronglySorted (λ x y, R x y ∧ x ≠ y) l.
Proof.
  induction 1 as [|x l Hsorted IH Hall]; intros Hnodup; constructor.
  - apply IH. by apply NoDup_cons in Hnodup as [_ ?].
  - apply NoDup_cons in Hnodup as [Hx _].
    rewrite Forall_forall in *. intros y Hy. split; [by apply Hall|].
    intros ->. done.
Qed.

Lemma sorted_ascending ord s :
  StronglySorted (λ x y, String.le x y ∧ x ≠ y) (sorted ord s).
Proof.
  apply StronglySorted_strict; [|apply NoDup_sorted].
  apply (StronglySorted_merge_sort String.le).
Qed.

Lemma sorted_items_by_name (l : list (string * json)) :
  StronglySorted (λ a b, String.le a.1 b.1) (sorted_items l) ∧
  sorted_items l ≡ₚ l.
Proof.
  assert (Transitive (λ a b : string * json, String.le a.1 b.1)) as Htrans.
  { intros a b c Hab Hbc. by etrans. }
  assert (Total (λ a b : string * json, String.le a.1 b.1)) as Htotal.
  { intros a b. apply (total String.le). }
  split.
  - apply Sorted_StronglySorted; [done|].
    apply (Sorted_merge_sort (λ a b : string * json, String.le a.1 b.1)).
  - apply merge_sort_Permutation.
Qed.

(** The names of the sections are reported in ascending order.  Check 3 and
    check 4 print their names, and record their messages, in strictly
    ascending order of the strings; check 2 prints one line per entry of
    [reduced_defs], in ascending order of the names of the definitions. *)
Theorem reports_in_ascending_order :
  ∀ (ord : set_iteration) (d : list (string * json)) (st : state),
    (∃ names,
       effect (check3 ord (JObj d)) st
         ((NL +:+ "3. Broken $refs: " +:+ pretty (length names))
          :: ((λ ref, "   BROKEN: " +:+ ref) <$> names))
         ((λ ref, "Broken $ref: " +:+ ref) <$> names)
         (Ok (targets_of d)) ∧
       StronglySorted (λ x y, String.le x y ∧ x ≠ y) names) ∧
    (∀ b bd,
       dict_get b "definitions" (JObj []) = JObj bd →
       ∃ names,
         effect (check4 ord (Some (JObj b)) (JObj d) (targets_of d)) st
           ((NL +:+ "4. Orphaned targets: " +:+ pretty (length names))
            :: ((λ name, "   ORPHANED: " +:+ name) <$> names))
           ((λ name, "Orphaned target: " +:+ name) <$> names)
           (Ok tt) ∧
         StronglySorted (λ x y, String.le x y ∧ x ≠ y) names) ∧
    ((∀ entry, entry ∈ reduced_of d → joinable entry.2 = true) →
     ∃ entries,
       effect (check2 (JObj d)) st
         ((NL +:+ "2. Collapsed defs (" +:+ pretty (length entries) +:+ "):")
          :: ((λ entry, "   " +:+ entry.1 +:+ " <- " +:+ joined entry.2) <$> entries))
         [] (Ok (reduced_of d)) ∧
       entries ≡ₚ reduced_of d ∧
       StronglySorted (λ a b, String.le a.1 b.1) entries).
Proof.
  intros ord d st. split_and!.
  - exists (sorted ord (broken_of d)). split; [|apply sorted_ascending].
    rewrite length_sorted. apply check3_effect.
  - intros b bd Hbd. exists (sorted ord (orphaned_of bd d)).
    split; [|apply sorted_ascending].
    rewrite length_sorted. by apply check4_effect.
  - intros Hall. exists (sorted_items (reduced_of d)).
    destruct (sorted_items_by_name (reduced_of d)) as [Hsorted Hperm].
    split_and!; [|done..].
    rewrite (Permutation_length Hperm). apply check2_effect. apply forallb_forall.
    intros entry Hentry. by apply Hall, list_elem_of_In.
Qed.

Lemma reports_in_ascending_order_witness :
  (∀ entry, entry ∈ reduced_of defs_collapsed → joinable entry.2 = true) ∧
  ∃ entries,
    effect (check2 (JObj defs_collapsed)) initial
      ((NL +:+ "2. Collapsed defs (" +:+ pretty (length entries) +:+ "):")
       :: ((λ entry, "   " +:+ entry.1 +:+ " <- " +:+ joined entry.2) <$> entries))
      [] (Ok (reduced_of defs_collapsed)) ∧
    entries ≡ₚ reduced_of defs_collapsed ∧
    StronglySorted (λ a b, String.le a.1 b.1) entries.
Proof.
  assert (∀ entry, entry ∈ reduced_of defs_collapsed → joinable entry.2 = true)
    as Hall.
  { intros entry Hentry. apply list_elem_of_singleton in Hentry as ->. reflexivity. }
  split; [exact Hall|].
  apply (reports_in_ascending_order elements_order defs_collapsed initial), Hall.
Defined.

(** ** The collector and the order of a document *)

Lemma entry_in_obj fields key val :
  entry_in (JObj fields) key val ↔
  ∃ entry, entry ∈ fields ∧
           (entry = (key, val) ∨ entry_in entry.2 key val).
Proof.
  split.
  - inversion 1 as [? ? ? Hin|? k v ? ? Hin Hsub|]; subst.
    + exists (key, val). auto.
    + exists (k, v). auto.
  - intros ([k v] & Hin & [[= -> ->]|Hsub]).
    + by constructor.
    + by econstructor 2.
Qed.

Lemma entry_in_arr items key val :
  entry_in (JArr items) key val ↔ ∃ item, item ∈ items ∧ entry_in item key val.
Proof.
  split.
  - inversion 1; subst. eauto.
  - intros (item & Hin & Hsub). by econstructor.
Qed.

Lemma targets_of_Permutation d d' : d ≡ₚ d' → targets_of d = targets_of d'.
Proof.
  intros Hperm. apply set_eq. intros name. rewrite !elem_of_targets_of.
  by setoid_rewrite Hperm.
Qed.

Lemma names_of_Permutation d d' : d ≡ₚ d' → names_of d = names_of d'.
Proof.
  intros Hperm. apply set_eq. intros name. unfold names_of.
  rewrite !elem_of_list_to_set. by rewrite Hperm.
Qed.

(** The order in which a document lists the keys of an object or the items of
    an array has no part in what is found: the collector returns the same set
    for two objects, or two arrays, that hold the same entries in different
    orders, and the sets of targets, of broken references and of orphans are
    the same for two definitions mappings that differ in order only. *)
Theorem order_of_entries_irrelevant :
  (∀ fields fields' refs,
     fields ≡ₚ fields' →
     collect_refs (JObj fields) refs = collect_refs (JObj fields') refs) ∧
  (∀ items items' refs,
     items ≡ₚ items' →
     collect_refs (JArr items) refs = collect_refs (JArr items') refs) ∧
  (∀ d d' bd bd',
     d ≡ₚ d' → bd ≡ₚ bd' →
     targets_of d = targets_of d' ∧ broken_of d = broken_of d' ∧
     orphaned_of bd d = orphaned_of bd' d').
Proof.
  split_and!.
  - intros fields fields' refs Hperm. apply set_eq. intros name.
    rewrite !collect_refs_elem. unfold references. rewrite !entry_in_obj.
    by setoid_rewrite Hperm.
  - intros items items' refs Hperm. apply set_eq. intros name.
    rewrite !collect_refs_elem. unfold references. rewrite !entry_in_arr.
    by setoid_rewrite Hperm.
  - intros d d' bd bd' Hd Hbd. unfold orphaned_of, broken_of.
    by rewrite (targets_of_Permutation d d' Hd), (names_of_Permutation d d' Hd),
      (names_of_Permutation bd bd' Hbd).
Qed.

Lemma order_of_entries_irrelevant_witness :
  defs_before ≡ₚ reverse defs_before ∧
  defs_orphan ≡ₚ reverse defs_orphan ∧
  orphaned_of defs_before defs_orphan
  = orphaned_of (reverse defs_before) (reverse defs_orphan).
Proof.
  assert (defs_before ≡ₚ reverse defs_before) as Hbd
    by (symmetry; apply reverse_Permutation).
  assert (defs_orphan ≡ₚ reverse defs_orphan) as Hd
    by (symmetry; apply reverse_Permutation).
  split; [exact Hbd|]. split; [exact Hd|].
  destruct order_of_entries_irrelevant as (_ & _ & Hsets).
  apply (Hsets defs_orphan (reverse defs_orphan) defs_before (reverse defs_before)
           Hd Hbd).
Defined.

(** Walks compose: walking a value a second time adds nothing, two walks can
    be made in either order, and a walk keeps every name the accumulator
    already holds, so that a larger accumulator gives a larger result. *)
Theorem collect_refs_composes :
  ∀ (obj obj' : json) (refs refs' : gset string),
    collect_refs obj (collect_refs obj refs) = collect_refs obj refs ∧
    collect_refs obj (collect_refs obj' refs)
    = collect_refs obj' (collect_refs obj refs) ∧
    refs ⊆ collect_refs obj refs ∧
    (refs ⊆ refs' → collect_refs obj refs ⊆ collect_refs obj refs').
Proof.
  intros obj obj' refs refs'. split_and!.
  - apply set_eq. intros name. rewrite !collect_refs_elem. tauto.
  - apply set_eq. intros name. rewrite !collect_refs_elem. tauto.
  - intros name Hname. apply collect_refs_elem. by left.
  - intros Hsub name. rewrite !collect_refs_elem.
    intros [Hname|Href]; [left; by apply Hsub|by right].
Qed.

Lemma collect_refs_composes_witness :
  (∅ : gset string) ⊆ {[ "Y" ]} ∧
  collect_refs nested_ref ∅ ⊆ collect_refs nested_ref {[ "Y" ]}.
Proof.
  assert ((∅ : gset string) ⊆ {[ "Y" ]}) as Hsub.
  { intros name Hname. by apply elem_of_empty in Hname. }
  split; [exact Hsub|].
  apply (collect_refs_composes nested_ref nested_ref ∅ {[ "Y" ]}), Hsub.
Defined.

(** ** Runs that stop before the summary *)

Lemma py_len_TypeError v :
  py_len v = Raise TypeError ↔
  v = JNull ∨ (∃ b, v = JBool b) ∨ (∃ n, v = JInt n) ∨ (∃ f, v = JFloat f).
Proof.
  destruct v; simpl; split; eauto; try done;
    intros [?|[[? ?]|[[? ?]|[? ?]]]]; done.
Qed.

(** An after document that is valid JSON but not of the shape the script
    reads ends the run at once: when the document is not an object, [get]
    raises [AttributeError]; when it is an object whose ["definitions"] are
    [null], a boolean or a number, [len] raises [TypeError].  In both cases
    nothing has been printed, the title included, and nothing recorded. *)
Theorem ill_shaped_after_raises :
  ∀ (fs : string → file) (format_value : json → string) (ord : set_iteration)
    (prog after_path : string) (rest : list string) (after : json),
    fs after_path = Document after →
    ((∀ a, after ≠ JObj a) →
     run fs format_value ord (prog :: after_path :: rest)
     = ({| stdout := []; errors := [] |}, Raise AttributeError)) ∧
    (∀ a after_defs,
       after = JObj a →
       dict_get a "definitions" (JObj []) = after_defs →
       after_defs = JNull ∨ (∃ b, after_defs = JBool b) ∨
       (∃ n, after_defs = JInt n) ∨ (∃ f, after_defs = JFloat f) →
       run fs format_value ord (prog :: after_path :: rest)
       = ({| stdout := []; errors := [] |}, Raise TypeError)).
Proof.
  intros fs format_value ord prog after_path rest after Hafter.
  assert (load fs after_path = Ok after) as Hload
    by (unfold load; by rewrite Hafter).
  split.
  - intros Hnot. apply run_effect. unfold main.
    eapply effect_bind_lift; [exact Hload|].
    apply effect_bind_lift_Raise. by apply py_get_not_Ok.
  - intros a after_defs -> Hdefs Hshape. apply run_effect. unfold main.
    eapply effect_bind_lift; [exact Hload|].
    eapply (effect_bind_lift _ after_defs); [simpl; by rewrite Hdefs|].
    apply effect_bind_lift_Raise. by apply py_len_TypeError.
Qed.

Lemma ill_shaped_after_raises_witness :
  files [("after.json", Document (JArr []))] "after.json" = Document (JArr []) ∧
  (∀ a, JArr [] ≠ JObj a) ∧
  run (files [("after.json", Document (JArr []))]) format_sample elements_order
    [PROG; "after.json"]
  = ({| stdout := []; errors := [] |}, Raise AttributeError).
Proof.
  assert (∀ a, JArr [] ≠ JObj a) as Hnot by discriminate.
  split; [reflexivity|]. split; [exact Hnot|].
  apply (ill_shaped_after_raises (files [("after.json", Document (JArr []))])
           format_sample elements_order PROG "after.json" [] (JArr []) eq_refl),
    Hnot.
Defined.

(** Definitions given as a list or as a string have a length, so the run
    prints the title and the line of check 1 with that length; check 2 then
    calls [items()] and raises [AttributeError].  (Stated for a run without a
    before document.) *)
Theorem definitions_not_a_mapping :
  ∀ (fs : string → file) (format_value : json → string) (ord : set_iteration)
    (prog after_path : string) (rest : list string)
    (a : list (string * json)) (after_defs : json) (after_count : Z),
    fs after_path = Document (JObj a) →
    dict_get a "definitions" (JObj []) = after_defs →
    py_len after_defs = Ok after_count →
    (∀ d, after_defs ≠ JObj d) →
    head rest = None ∨ head rest = Some "" →
    ((∃ items, after_defs = JArr items) ∨ (∃ s, after_defs = JStr s)) ∧
    run fs format_value ord (prog :: after_path :: rest)
    = ({| stdout := [HEADER after_path; NO_BEFORE_LINE after_count];
          errors := [] |}, Raise AttributeError).
Proof.
  intros fs format_value ord prog after_path rest a after_defs after_count
    Hafter Hdefs Hlen Hnot Hnone.
  split.
  { destruct after_defs; try done; eauto. by destruct (Hnot fields). }
  assert (load fs after_path = Ok (JObj a)) as Hload
    by (unfold load; by rewrite Hafter).
  apply run_effect. unfold main. eapply effect_eq.
  - eapply effect_bind_lift; [exact Hload|].
    eapply (effect_bind_lift _ after_defs); [simpl; by rewrite Hdefs|].
    eapply effect_bind_lift; [exact Hlen|].
    eapply effect_bind; [apply effect_print|].
    eapply effect_bind; [by apply check1_not_supplied|].
    apply effect_bind_Raise. by apply check2_not_dict.
  - done.
  - done.
Qed.

Lemma definitions_not_a_mapping_witness :
  run (files [("after.json",
               Document (JObj [("definitions", JArr [JObj []; JObj []])]))])
    format_sample elements_order [PROG; "after.json"]
  = ({| stdout := [HEADER "after.json"; NO_BEFORE_LINE 2]; errors := [] |},
     Raise AttributeError).
Proof.
  apply (definitions_not_a_mapping
           (files [("after.json",
                    Document (JObj [("definitions", JArr [JObj []; JObj []])]))])
           format_sample elements_order PROG "after.json" []
           [("definitions", JArr [JObj []; JObj []])] (JArr [JObj []; JObj []]) 2).
  - reflexivity.
  - reflexivity.
  - reflexivity.
  - discriminate.
  - left. reflexivity.
Defined.

(** A before document that cannot be loaded, or is not an object, ends the run
    inside check 1, after the title line has been printed: the report is cut
    short after its first line, and the exception is the one of [open]
    ([OSError]), of [json.load] ([JSONDecodeError]) or of [get]
    ([AttributeError]). *)
Theorem before_not_loaded :
  ∀ (fs : string → file) (format_value : json → string) (ord : set_iteration)
    (prog after_path path : string) (more : list string)
    (a : list (string * json)) (after_count : Z),
    fs after_path = Document (JObj a) →
    py_len (dict_get a "definitions" (JObj [])) = Ok after_count →
    path ≠ "" →
    let r := run fs format_value ord (prog :: after_path :: path :: more) in
    (fs path = Unreadable →
     r = ({| stdout := [HEADER after_path]; errors := [] |}, Raise OSError)) ∧
    (fs path = Malformed →
     r = ({| stdout := [HEADER after_path]; errors := [] |}, Raise JSONDecodeError)) ∧
    (∀ before, fs path = Document before → (∀ b, before ≠ JObj b) →
     r = ({| stdout := [HEADER after_path]; errors := [] |}, Raise AttributeError)).
Proof.
  intros fs format_value ord prog after_path path more a after_count
    Hafter Hlen Hpath r.
  assert (load fs after_path = Ok (JObj a)) as Hload
    by (unfold load; by rewrite Hafter).
  assert (∀ x,
    (∀ st, effect (check1 fs (Some path) after_count) st [] [] (Raise x)) →
    r = ({| stdout := [HEADER after_path]; errors := [] |}, Raise x)) as Hrun.
  { intros x Hcheck. apply run_effect. unfold main. eapply effect_eq.
    - eapply effect_bind_lift; [exact Hload|].
      eapply (effect_bind_lift _ (dict_get a "definitions" (JObj []))); [done|].
      eapply effect_bind_lift; [exact Hlen|].
      eapply effect_bind; [apply effect_print|].
      apply effect_bind_Raise. apply Hcheck.
    - done.
    - done. }
  split_and!.
  - intros Hfs. apply Hrun. intros st. unfold check1.
    rewrite bool_decide_eq_true_2 by done.
    apply effect_bind_lift_Raise. unfold load. by rewrite Hfs.
  - intros Hfs. apply Hrun. intros st. unfold check1.
    rewrite bool_decide_eq_true_2 by done.
    apply effect_bind_lift_Raise. unfold load. by rewrite Hfs.
  - intros before Hfs Hnot. apply Hrun. intros st. unfold check1.
    rewrite bool_decide_eq_true_2 by done.
    eapply (effect_bind_lift _ before); [unfold load; by rewrite Hfs|].
    apply effect_bind_lift_Raise. by apply py_get_not_Ok.
Qed.

Lemma before_not_loaded_witness :
  files [("after.json", Document (JObj doc_collapsed))] "before.json" = Unreadable ∧
  run (files [("after.json", Document (JObj doc_collapsed))]) format_sample
    elements_order [PROG; "after.json"; "before.json"]
  = ({| stdout := [HEADER "after.json"]; errors := [] |}, Raise OSError).
Proof.
  split; [reflexivity|].
  apply (before_not_loaded (files [("after.json", Document (JObj doc_collapsed))])
           format_sample elements_order PROG "after.json" "before.json" []
           doc_collapsed 2); [reflexivity|reflexivity|discriminate|reflexivity].
Defined.

(** A before document whose ["definitions"] are a list or a string passes
    check 1, which only takes their length, and the checks 2 and 3 run; check 4
    then calls [keys()] and raises [AttributeError]: the report stops after
    the section of check 3 and the process ends with status 1 without a
    summary. *)
Theorem before_definitions_not_a_mapping :
  ∀ (fs : string → file) (format_value : json → string) (ord : set_iteration)
    (prog after_path path : string) (more : list string)
    (a d b : list (string * json)) (before_defs : json) (before_count : Z),
    fs after_path = Document (JObj a) →
    dict_get a "definitions" (JObj []) = JObj d →
    forallb (λ entry, joinable entry.2) (reduced_of d) = true →
    path ≠ "" →
    fs path = Document (JObj b) →
    dict_get b "definitions" (JObj []) = before_defs →
    py_len before_defs = Ok before_count →
    (∀ bd, before_defs ≠ JObj bd) →
    let removed := (before_count - Z.of_nat (length d))%Z in
    run fs format_value ord (prog :: after_path :: path :: more)
    = ({| stdout :=
            [HEADER after_path;
             "1. Def count: " +:+ pretty before_count +:+ " -> " +:+
             pretty (Z.of_nat (length d)) +:+ " (" +:+ pretty removed +:+ " removed)"]
            ++ check2_lines d ++ check3_lines ord d;
          errors :=
            (if (removed <? 0)%Z
             then ["Def count increased by " +:+ pretty (- removed)%Z] else [])
            ++ check3_errors ord d |},
       Raise AttributeError).
Proof.
  intros fs format_value ord prog after_path path more a d b before_defs
    before_count Hafter Hdefs Hjoin Hpath Hfs Hbdefs Hlen Hnot removed.
  assert (load fs after_path = Ok (JObj a)) as Hload
    by (unfold load; by rewrite Hafter).
  apply run_effect. unfold main. eapply effect_eq.
  - eapply effect_bind_lift; [exact Hload|].
    eapply (effect_bind_lift _ (JObj d)); [simpl; by rewrite Hdefs|].
    eapply (effect_bind_lift _ (Z.of_nat (length d))); [done|].
    eapply effect_bind; [apply effect_print|].
    eapply effect_bind.
    { eapply (check1_supplied fs path (JObj b) before_defs); [done..| |done].
      simpl. by rewrite Hbdefs. }
    eapply effect_bind; [by apply check2_effect|].
    eapply effect_bind; [apply check3_effect|].
    apply effect_bind_Raise. by eapply check4_not_dict.
  - unfold HEADER, check2_lines, check3_lines. cbn [app].
    rewrite !app_nil_r. reflexivity.
  - cbn [app]. rewrite !app_nil_r. reflexivity.
Qed.

Lemma before_definitions_not_a_mapping_witness :
  run (files [("after.json", Document (JObj doc_collapsed));
              ("before.json", Document (JObj [("definitions", JArr [JNull])]))])
    format_sample elements_order [PROG; "after.json"; "before.json"]
  = ({| stdout :=
          [HEADER "after.json"; "1. Def count: 1 -> 2 (-1 removed)";
           NL +:+ "2. Collapsed defs (1):"; "   Y <- Z";
           NL +:+ "3. Broken $refs: 0"];
        errors := ["Def count increased by 1"] |}, Raise AttributeError).
Proof.
  rewrite (before_definitions_not_a_mapping
             (files [("after.json", Document (JObj doc_collapsed));
                     ("before.json",
                      Document (JObj [("definitions", JArr [JNull])]))])
             format_sample elements_order PROG "after.json" "before.json" []
             doc_collapsed defs_collapsed [("definitions", JArr [JNull])]
             (JArr [JNull]) 1);
    [vm_compute; reflexivity|reflexivity..|discriminate|reflexivity
    |reflexivity|reflexivity|discriminate].
Defined.

(** ** The command line and the missing keys *)

Lemma check1_empty_path fs after_count st :
  check1 fs (Some "") after_count st = check1 fs None after_count st.
Proof. unfold check1. by rewrite bool_decide_eq_false_2 by auto. Qed.

(** Only [sys.argv[1]] and [sys.argv[2]] are read: the name of the program and
    every argument past the second have no part in a run, and an empty second
    path is the same as none. *)
Theorem argv_beyond_two_ignored :
  ∀ (fs : string → file) (format_value : json → string) (ord : set_iteration)
    (prog prog' after_path before_path : string) (more : list string),
    run fs format_value ord (prog :: after_path :: before_path :: more)
    = run fs format_value ord [prog'; after_path; before_path] ∧
    run fs format_value ord (prog :: after_path :: "" :: more)
    = run fs format_value ord [prog'; after_path] ∧
    run fs format_value ord [prog; after_path]
    = run fs format_value ord [prog'; after_path].
Proof.
  intros fs format_value ord prog prog' after_path before_path more.
  split_and!; [reflexivity| |reflexivity].
  unfold run, main. cbn [head].
  apply bind_ext; [done|]. intros after st1.
  apply bind_ext; [done|]. intros after_defs st2.
  apply bind_ext; [done|]. intros after_count st3.
  apply bind_ext; [done|]. intros _ st4.
  apply bind_ext; [|done]. intros st5. apply check1_empty_path.
Qed.

Lemma dict_get_lookup d key dflt :
  dict_get d key dflt = default dflt (dict_lookup d key).
Proof.
  induction d as [|[k v] d IH]; simpl; [done|].
  by destruct (String.eqb k key).
Qed.

(** When the after document has no ["x-netex-collapsed"] key the annotation is
    taken as 0: check 5 prints it as such and records a mismatch exactly when
    some definition carries an annotation, that is when [reduced_defs] is not
    empty. *)
Theorem missing_annotation_is_zero :
  ∀ (format_value : json → string) (a reduced_defs : list (string * json))
    (st : state),
    dict_lookup a "x-netex-collapsed" = None →
    ∃ errs,
      effect (check5 format_value (JObj a) reduced_defs) st
        [NL +:+ "5. x-netex-collapsed: " +:+ format_value (JInt 0) +:+
         " (actual: " +:+ pretty (Z.of_nat (length reduced_defs)) +:+ ")"]
        errs (Ok tt) ∧
      (errs = [] ↔ reduced_defs = []) ∧
      (reduced_defs ≠ [] →
       errs = ["x-netex-collapsed mismatch: annotation=" +:+ format_value (JInt 0) +:+
               ", actual=" +:+ pretty (Z.of_nat (length reduced_defs))]).
Proof.
  intros format_value a reduced_defs st Hmissing.
  pose proof (check5_effect format_value a reduced_defs st) as Hcheck.
  cbn zeta in Hcheck. rewrite dict_get_lookup, Hmissing in Hcheck.
  cbn [default] in Hcheck. eexists. split; [exact Hcheck|].
  cbn [py_ne_int]. destruct reduced_defs as [|entry reduced_defs]; simpl.
  - split; [done|]. by intros [].
  - split; [split; done|done].
Qed.

Lemma missing_annotation_is_zero_witness :
  dict_lookup doc_broken "x-netex-collapsed" = None ∧
  ∃ errs,
    effect (check5 format_sample (JObj doc_broken) []) initial
      [NL +:+ "5. x-netex-collapsed: " +:+ format_sample (JInt 0) +:+
       " (actual: " +:+ pretty (Z.of_nat (length (@nil (string * json)))) +:+ ")"]
      errs (Ok tt) ∧
    (errs = [] ↔ @nil (string * json) = []) ∧
    (@nil (string * json) ≠ [] →
     errs = ["x-netex-collapsed mismatch: annotation=" +:+ format_sample (JInt 0) +:+
             ", actual=" +:+ pretty (Z.of_nat (length (@nil (string * json))))]).
Proof.
  split; [reflexivity|].
  apply (missing_annotation_is_zero format_sample doc_broken [] initial).
  reflexivity.
Defined.

Lemma targets_of_nil : targets_of [] = ∅.
Proof. reflexivity. Qed.

Lemma broken_of_nil : broken_of [] = ∅.
Proof. apply broken_of_empty. by rewrite targets_of_nil. Qed.

(** An after document without the key ["definitions"] is read as one with no
    definitions: whatever else it holds, and with or without a before
    document, the run completes, the checks 1 to 4 record nothing, and the
    verdict is that of check 5 alone, which compares the annotation with 0. *)
Theorem missing_definitions_are_empty :
  ∀ (fs : string → file) (format_value : json → string) (ord : set_iteration)
    (prog after_path : string) (rest : list string)
    (a : list (string * json)) (bd : option (list (string * json))),
    fs after_path = Document (JObj a) →
    dict_lookup a "definitions" = None →
    before_definitions fs rest = Some bd →
    let r := run fs format_value ord (prog :: after_path :: rest) in
    let annotation := dict_get a "x-netex-collapsed" (JInt 0) in
    (∀ x, r.2 ≠ Raise x) ∧
    errors r.1
    = (if py_ne_int annotation 0
       then ["x-netex-collapsed mismatch: annotation=" +:+ format_value annotation +:+
             ", actual=0"]
       else []) ∧
    (exit_status r.2 = 0%Z ↔ py_ne_int annotation 0 = false) ∧
    (NL +:+ "2. Collapsed defs (0):") ∈ stdout r.1 ∧
    (NL +:+ "3. Broken $refs: 0") ∈ stdout r.1.
Proof.
  intros fs format_value ord prog after_path rest a bd Hafter Hmissing Hbefore
    r annotation.
  assert (shaped fs after_path rest a [] bd) as Hshaped.
  { split; try done. by rewrite dict_get_lookup, Hmissing. }
  assert (expected_errors format_value ord a [] bd
          = if py_ne_int annotation 0
            then ["x-netex-collapsed mismatch: annotation=" +:+
                  format_value annotation +:+ ", actual=0"]
            else []) as Herrs.
  { unfold expected_errors.
    rewrite (proj2 (check3_errors_nil ord []) broken_of_nil).
    rewrite (check4_errors_nil ord bd [] broken_of_nil).
    assert (check1_errors bd [] = []) as ->.
    { destruct bd as [bd|]; [|done]. unfold check1_errors. cbn [length].
      destruct (_ <? 0)%Z eqn:Hneg; [|done]. apply Z.ltb_lt in Hneg. lia. }
    reflexivity. }
  subst r. rewrite (main_report _ format_value ord prog _ _ _ _ _ Hshaped).
  cbn [fst snd errors stdout]. rewrite Herrs. split_and!.
  - intros x. by destruct (py_ne_int annotation 0).
  - done.
  - by destruct (py_ne_int annotation 0).
  - unfold expected_report. rewrite !elem_of_app. right; right; left.
    unfold check2_lines. by left.
  - unfold expected_report. rewrite !elem_of_app. right; right; right; left.
    unfold check3_lines. rewrite broken_of_nil, size_empty. by left.
Qed.

Lemma missing_definitions_are_empty_witness :
  dict_lookup [("x-netex-collapsed", JInt 2)] "definitions" = None ∧
  errors (run (files [("after.json",
                       Document (JObj [("x-netex-collapsed", JInt 2)]))])
            format_sample elements_order [PROG; "after.json"]).1
  = ["x-netex-collapsed mismatch: annotation=2, actual=0"].
Proof.
  split; [reflexivity|].
  apply (missing_definitions_are_empty
           (files [("after.json", Document (JObj [("x-netex-collapsed", JInt 2)]))])
           format_sample elements_order PROG "after.json" []
           [("x-netex-collapsed", JInt 2)] None);
    reflexivity.
Defined.

(** A before document without the key ["definitions"] counts as one with no
    definitions: check 1 reports [0 -> n] and records an increase as soon as
    the after document has a definition, and check 4 finds no orphan. *)
Theorem before_without_definitions :
  ∀ (fs : string → file) (ord : set_iteration) (path : string)
    (b d : list (string * json)) (st : state),
    path ≠ "" →
    fs path = Document (JObj b) →
    dict_lookup b "definitions" = None →
    let after_count := Z.of_nat (length d) in
    (∃ errs,
       effect (check1 fs (Some path) after_count) st
         ["1. Def count: 0 -> " +:+ pretty after_count +:+
          " (" +:+ pretty (- after_count)%Z +:+ " removed)"]
         errs (Ok (Some (JObj b))) ∧
       (d = [] → errs = []) ∧
       (d ≠ [] → errs = ["Def count increased by " +:+ pretty after_count])) ∧
    effect (check4 ord (Some (JObj b)) (JObj d) (targets_of d)) st
      [NL +:+ "4. Orphaned targets: 0"] [] (Ok tt).
Proof.
  intros fs ord path b d st Hpath Hfs Hmissing after_count.
  assert (dict_get b "definitions" (JObj []) = JObj []) as Hbd
    by (by rewrite dict_get_lookup, Hmissing).
  split.
  - pose proof (check1_supplied fs path (JObj b) (JObj []) 0 after_count st
                  Hpath Hfs) as Hcheck.
    cbn zeta in Hcheck. rewrite Z.sub_0_l, Z.opp_involutive in Hcheck.
    eexists. split; [apply Hcheck; [simpl; by rewrite Hbd|done]|].
    subst after_count. destruct d as [|entry d]; [done|].
    split; [done|]. intros _.
    assert ((- Z.of_nat (length (entry :: d)) <? 0)%Z = true) as ->; [|done].
    apply Z.ltb_lt. simpl. lia.
  - pose proof (check4_effect ord b [] d st Hbd) as Hcheck.
    assert (orphaned_of [] d = ∅) as Hnone.
    { apply set_eq. intros name. unfold orphaned_of, names_of.
      rewrite elem_of_intersection, elem_of_difference, elem_of_empty.
      simpl. rewrite elem_of_empty. tauto. }
    unfold check4_errors in Hcheck.
    rewrite Hnone, sorted_empty, size_empty in Hcheck. exact Hcheck.
Qed.

Lemma before_without_definitions_witness :
  files [("before.json", Document (JObj []))] "before.json" = Document (JObj []) ∧
  ∃ errs,
    effect (check1 (files [("before.json", Document (JObj []))])
              (Some "before.json") (Z.of_nat (length defs_collapsed))) initial
      ["1. Def count: 0 -> " +:+ pretty (Z.of_nat (length defs_collapsed)) +:+
       " (" +:+ pretty (- Z.of_nat (length defs_collapsed))%Z +:+ " removed)"]
      errs (Ok (Some (JObj []))) ∧
    (defs_collapsed = [] → errs = []) ∧
    (defs_collapsed ≠ [] →
     errs = ["Def count increased by " +:+
             pretty (Z.of_nat (length defs_collapsed))]).
Proof.
  split; [reflexivity|].
  apply (before_without_definitions (files [("before.json", Document (JObj []))])
           elements_order "before.json" [] defs_collapsed initial);
    [discriminate|reflexivity|reflexivity].
Defined.
